(** * physmem2minidump: a shallow embedding of client/physmem2profit/physmem2minidump.py

    The development follows the Python module function by function:
    - [Py]   the few Python built-ins the module relies on ([sorted],
             [range], [os.path.splitext], [str.lower]);
    - [I]    the interval package the module imports as [I];
    - the collaborator interfaces (session, address spaces, file system);
    - [read_memoryinfo], [read_memory_fast] and its phases,
      [read_modulelist], [ensureFileExist], [read_secure_world], [_cg],
      [_dump] and [dump].

    Integers are Python integers, hence [Z].  Byte strings are [list byte].
    Progress narration ([print], [os.system]) has no influence on any
    value the module computes and is left out of the embedding.

    Part I holds the definitions, Part II the lemmas and theorems. *)

From Stdlib Require Import ZArith List Bool String Ascii Lia.
From Stdlib Require Import Strings.Byte.
From Stdlib Require Import Sorting.Sorted Sorting.Permutation.
Import ListNotations.

Open Scope Z_scope.

(* ################################################################## *)
(** * Part I: the program *)

(* ================================================================== *)
(** ** Python built-ins *)

Module Py.

Section Sorted.
Context {A : Type} (leb : A -> A -> bool).

Fixpoint insert (x : A) (l : list A) : list A :=
  match l with
  | [] => [x]
  | y :: t => if leb x y then x :: y :: t else y :: insert x t
  end.

(** [sorted(l)]: elements are inserted from the right, each in front of
    the first element it does not exceed, which keeps the sort stable. *)
Definition sorted (l : list A) : list A := fold_right insert [] l.

End Sorted.

(** [range(n)] for an integer [n]: [0, 1, ..., n-1], empty when [n <= 0]. *)
Definition range (n : Z) : list Z := map Z.of_nat (seq 0 (Z.to_nat n)).

(** Tuples compare lexicographically. *)
Definition pair_leb (x y : Z * Z) : bool :=
  (fst x <? fst y) || ((fst x =? fst y) && (snd x <=? snd y)).

(** [str.lower] on ASCII letters. *)
Definition lower_ascii (c : ascii) : ascii :=
  let n := nat_of_ascii c in
  if ((65 <=? n) && (n <=? 90))%nat then ascii_of_nat (n + 32) else c.

Fixpoint lower (s : string) : string :=
  match s with
  | EmptyString => EmptyString
  | String c t => String (lower_ascii c) (lower t)
  end.

(** [s.rfind(c)] as the number of characters before the last [c]. *)
Fixpoint rfind (c : ascii) (s : string) : option nat :=
  match s with
  | EmptyString => None
  | String a t =>
      match rfind c t with
      | Some i => Some (S i)
      | None => if Ascii.eqb a c then Some O else None
      end
  end.

Definition prefix (n : nat) (s : string) : string := String.substring 0 n s.
Definition suffix (n : nat) (s : string) : string :=
  String.substring n (String.length s - n) s.

(** The characters at positions [from], ..., [to - 1] of [s] are all [c]. *)
Definition all_chars (c : ascii) (s : string) (from to : nat) : bool :=
  forallb (fun i => match String.get i s with
                    | Some a => Ascii.eqb a c
                    | None => true
                    end)
          (seq from (to - from)).

(** [os.path.splitext] (posixpath): the extension starts at the last dot
    of the last path component, unless that component has only dots in
    front of it. *)
Definition splitext (p : string) : string * string :=
  let filenameIndex :=
    match rfind "/" p with Some i => S i | None => O end in
  match rfind "." p with
  | Some dotIndex =>
      if (filenameIndex <=? dotIndex)%nat
         && negb (all_chars "." p filenameIndex dotIndex)
      then (prefix dotIndex p, suffix dotIndex p)
      else (p, EmptyString)
  | None => (p, EmptyString)
  end.

(** [os.path.dirname]: what precedes the last slash. *)
Definition dirname (p : string) : string :=
  match rfind "/" p with
  | Some i => prefix i p
  | None => EmptyString
  end.

End Py.

(* ================================================================== *)
(** ** The interval package [I] *)

Module I.

(** Modelled from the spec: the package imported as [I] (python-intervals:
    [empty], [closedopen], [&], [|], [IntervalDict], [find], iteration
    over the atomic pieces) is a third-party dependency that is not part
    of src/.  Following section 4.1 ("treat ranges as sets of addresses",
    "interval subtraction") an [Interval] is a union of atomic closed-open
    ranges kept in the package's normal form: atomic pieces non-empty,
    ordered by lower bound, and merged whenever they overlap or touch.
    Only closed-open bounds occur in the program, and differences of
    closed-open ranges are closed-open again.  Iterating over the empty
    interval is taken to yield no piece. *)
Definition atom : Type := Z * Z.

Definition lower (x : atom) : Z := fst x.
Definition upper (x : atom) : Z := snd x.

Definition atom_nonempty (x : atom) : bool := lower x <? upper x.

Definition Interval : Type := list atom.

Definition empty : Interval := [].

Definition lower_leb (x y : atom) : bool := lower x <=? lower y.

(** Modelled from the spec: the merge step of the normal form, on a list
    ordered by lower bound: [cur] absorbs the next piece when that piece
    starts inside [cur] or right at its end. *)
Fixpoint merge_from (cur : atom) (l : list atom) : list atom :=
  match l with
  | [] => [cur]
  | y :: t =>
      if lower y <=? upper cur
      then merge_from (lower cur, Z.max (upper cur) (upper y)) t
      else cur :: merge_from y t
  end.

Definition merge (l : list atom) : list atom :=
  match l with
  | [] => []
  | x :: t => merge_from x t
  end.

(** Modelled from the spec: the constructor [Interval] applied to atomic
    pieces: drop the empty ones, sort, merge. *)
Definition mk (l : list atom) : Interval :=
  merge (Py.sorted lower_leb (filter atom_nonempty l)).

(** Modelled from the spec: [I.closedopen(a, b)], the range [[a, b)]. *)
Definition closedopen (a b : Z) : Interval := mk [(a, b)].

(** Modelled from the spec: [s | t]. *)
Definition union (s t : Interval) : Interval := mk (s ++ t).

Definition atom_and (x y : atom) : atom :=
  (Z.max (lower x) (lower y), Z.min (upper x) (upper y)).

(** Modelled from the spec: [s & t], the pairwise intersections of the
    pieces. *)
Definition inter (s t : Interval) : Interval :=
  mk (flat_map (fun x => map (atom_and x) t) s).

(** Modelled from the spec: [x - y] for atomic pieces: what of [x] lies
    left of [y], and what lies right of it. *)
Definition atom_sub (x y : atom) : list atom :=
  [ (lower x, Z.min (upper x) (lower y));
    (Z.max (lower x) (upper y), upper x) ].

Definition sub_atom (s : list atom) (y : atom) : list atom :=
  flat_map (fun x => atom_sub x y) s.

(** Modelled from the spec: [s - t] (interval subtraction), one piece of
    [t] after the other. *)
Definition diff (s t : Interval) : Interval := mk (fold_left sub_atom t s).

Definition is_empty (s : Interval) : bool :=
  match s with [] => true | _ => false end.

Definition atom_eqb (x y : atom) : bool :=
  (lower x =? lower y) && (upper x =? upper y).

Fixpoint eqb (s t : Interval) : bool :=
  match s, t with
  | [], [] => true
  | x :: s', y :: t' => atom_eqb x y && eqb s' t'
  | _, _ => false
  end.

Definition overlaps (s t : Interval) : bool := negb (is_empty (inter s t)).

(** *** [IntervalDict]: intervals labelled with a value *)

Definition IntervalDict : Type := list (Interval * string).

Definition has_value (value : string) (d : IntervalDict) : bool :=
  existsb (fun kv => String.eqb value (snd kv)) d.

(** Modelled from the spec: [d[key] = value].  Every item already
    carrying [value] is extended by [key], [key] is carved out of every
    other item (items left empty disappear), and a new item is appended
    when no item carried [value]. *)
Definition setitem (d : IntervalDict) (key : Interval) (value : string)
  : IntervalDict :=
  if is_empty key then d
  else
    let d' :=
      flat_map
        (fun kv =>
           if String.eqb value (snd kv) then [(union (fst kv) key, snd kv)]
           else if overlaps (fst kv) key then
                  let remaining := diff (fst kv) key in
                  if is_empty remaining then [] else [(remaining, snd kv)]
                else [kv])
        d in
    if has_value value d then d' else d' ++ [(key, value)].

(** Modelled from the spec: [d.find(value)], the union of the keys
    labelled [value]. *)
Definition find (d : IntervalDict) (value : string) : Interval :=
  mk (flat_map (fun kv => if String.eqb (snd kv) value then fst kv else []) d).

(** *** Address-set reading of intervals *)

Definition inA (a : Z) (x : atom) : Prop := lower x <= a < upper x.

(** [a] belongs to the union of the pieces of [s]. *)
Definition contains (s : list atom) (a : Z) : Prop :=
  exists x, In x s /\ inA a x.

(** The normal form: non-empty pieces, each ending strictly before the
    next one starts. *)
Definition separated (x y : atom) : Prop := upper x < lower y.

Definition canonical (s : list atom) : Prop :=
  Forall (fun x => lower x < upper x) s /\ Sorted separated s.

Definition lower_le (x y : atom) : Prop := lower x <= lower y.

(** Address [a] lies in a key of [d] labelled [v]. *)
Definition labelled (d : IntervalDict) (v : string) (a : Z) : Prop :=
  exists kv, In kv d /\ snd kv = v /\ contains (fst kv) a.

End I.

(** Unfolds the bounds and comparisons of atomic pieces. *)
Ltac iv_unfold :=
  unfold I.inA, I.separated, I.atom_nonempty, I.atom_and, I.lower_leb,
    I.lower_le, I.lower, I.upper in *; simpl in *.

(* ================================================================== *)
(** ** Exceptions and outcomes *)

Inductive exn : Type :=
| KeyboardInterrupt
| StopIteration
| KeyError (key : string)
| FileNotFoundError (path : string)
| FileExistsError (path : string)
| Exception (msg : string)
| CollaboratorError (what : string).

(** What a call into a collaborator yields. *)
Inductive result (A : Type) : Type :=
| Ok (a : A)
| Raise (e : exn).
Arguments Ok {A} a.
Arguments Raise {A} e.

(** How a function of the module ends: it returns, an exception leaves
    it, or [sys.exit(code)] was called ([SystemExit], which no handler of
    the module catches). *)
Inductive outcome (A : Type) : Type :=
| Return (a : A)
| Raised (e : exn)
| SysExit (code : Z).
Arguments Return {A} a.
Arguments Raised {A} e.
Arguments SysExit {A} code.

(* ================================================================== *)
(** ** Data of the module *)

Definition bytes : Type := list byte.

Definition zeros (size : Z) : bytes := repeat x00 (Z.to_nat size).

(** An entry of [module_list]: [(dll_path, base, size)]. *)
Definition module : Type := string * Z * Z.

(** An entry of [operations]: [(start, end, op)]. *)
Definition operation : Type := Z * Z * string.

(** An entry of [memory64_list]: [(start, size, data)]. *)
Definition block : Type := Z * Z * bytes.

(** The [dict] built for every memory region. *)
Record MemoryInfo : Type := {
  BaseAddress : Z;
  AllocationBase : Z;
  AllocationProtect : Z;
  RegionSize : Z;
  Protect : Z;
  State : Z;
  Type_ : Z
}.

Record SystemInfo : Type := {
  MajorVersion : Z;
  MinorVersion : Z;
  BuildNumber : Z
}.

Definition module_leb (x y : module) : bool :=
  let '(p1, b1, z1) := x in
  let '(p2, b2, z2) := y in
  match String.compare p1 p2 with
  | Lt => true
  | Gt => false
  | Eq => Py.pair_leb (b1, z1) (b2, z2)
  end.

Definition op_leb (x y : operation) : bool :=
  let '(s1, e1, k1) := x in
  let '(s2, e2, k2) := y in
  (s1 <? s2) || ((s1 =? s2) && ((e1 <? e2) || ((e1 =? e2) && String.leb k1 k2))).

(* ================================================================== *)
(** ** Collaborators: the memory-forensics session *)

(** The address space of a process.  [get_address_ranges end_] lists the
    runs [(start, end)] below [end_]; [page_read] is the raw read
    underneath [read]. *)
Record AddressSpace : Type := {
  get_address_ranges : Z -> list (Z * Z);
  page_read : Z -> Z -> option bytes
}.

(** Modelled from the spec: [addr_space.read] belongs to Rekall and is
    not part of src/.  The comment in [read_memory_fast] ("Rekall will
    fill with zeros if the read fails") and section 4.1 ("if the
    underlying read fails ... the content must be substituted with a
    zero-filled buffer of the same size") give its behaviour. *)
Definition addr_space_read (a : AddressSpace) (start size : Z) : bytes :=
  match page_read a start size with
  | Some data => data
  | None => zeros size
  end.

Record EPROCESS : Type := {
  name : string;
  pid : Z;
  get_process_address_space : AddressSpace
}.

(** An entry of [MmPfnDatabase]: [u3.e2.ReferenceCount], [u2.ShareCount]
    and [PteAddress]. *)
Record MMPFN : Type := {
  ReferenceCount : Z;
  ShareCount : Z;
  PteAddress : Z
}.

(** A row of [dlllist]; [dll_path] is absent from some rows. *)
Record dll_row : Type := {
  dll_path : option string;
  base : Z;
  size : Z
}.

(** A row of [vaddump]; [start] is absent from some rows. *)
Record vad_row : Type := {
  vad_start : option Z;
  vad_end : Z;
  vad_protect : Z;
  vad_type : string
}.

(** A row of [imageinfo]; [value_build] stands for
    [int(str(x['value']).split('.')[0])]. *)
Record info_row : Type := {
  key : option string;
  value_build : result Z
}.

Record Session : Type := {
  metadata_major : Z;
  metadata_minor : Z;
  (** [pslist(method='PsActiveProcessHead').collect()] *)
  pslist_PsActiveProcessHead : list EPROCESS;
  (** [pslist().collect()] *)
  pslist : list EPROCESS;
  (** [pslist(proc_regex='lsass.exe').filter_processes()] *)
  pslist_lsass : list EPROCESS;
  highest_usermode_address : Z;
  dlllist : Z -> list dll_row;
  vaddump : Z -> list vad_row;
  imageinfo : list info_row;
  (** [phys_map().collect()]: rows [(start, end, count)] *)
  phys_map : list (Z * Z * Z);
  MmPfnDatabase : Z -> MMPFN;
  (** [default_address_space.base.read] *)
  base_read : Z -> Z -> result bytes
}.

(** The container builder ([fsminidump.minidump.Minidump]) with the
    fields its setters fill in. *)
Record Minidump : Type := {
  md_systeminfo : option SystemInfo;
  md_memoryinfo_list : option (list MemoryInfo);
  md_memory64 : option (list block);
  md_module_list : option (list module);
  md_secure_world : option bytes
}.

Definition Minidump_new : Minidump :=
  {| md_systeminfo := None; md_memoryinfo_list := None; md_memory64 := None;
     md_module_list := None; md_secure_world := None |}.

Definition set_secure_world (m : Minidump) (x : bytes) : Minidump :=
  {| md_systeminfo := md_systeminfo m;
     md_memoryinfo_list := md_memoryinfo_list m;
     md_memory64 := md_memory64 m;
     md_module_list := md_module_list m;
     md_secure_world := Some x |}.

Definition set_systeminfo (m : Minidump) (x : SystemInfo) : Minidump :=
  {| md_systeminfo := Some x;
     md_memoryinfo_list := md_memoryinfo_list m;
     md_memory64 := md_memory64 m;
     md_module_list := md_module_list m;
     md_secure_world := md_secure_world m |}.

Definition set_memoryinfo_list (m : Minidump) (x : list MemoryInfo) : Minidump :=
  {| md_systeminfo := md_systeminfo m;
     md_memoryinfo_list := Some x;
     md_memory64 := md_memory64 m;
     md_module_list := md_module_list m;
     md_secure_world := md_secure_world m |}.

Definition set_memory64 (m : Minidump) (x : list block) : Minidump :=
  {| md_systeminfo := md_systeminfo m;
     md_memoryinfo_list := md_memoryinfo_list m;
     md_memory64 := Some x;
     md_module_list := md_module_list m;
     md_secure_world := md_secure_world m |}.

Definition set_module_list (m : Minidump) (x : list module) : Minidump :=
  {| md_systeminfo := md_systeminfo m;
     md_memoryinfo_list := md_memoryinfo_list m;
     md_memory64 := md_memory64 m;
     md_module_list := Some x;
     md_secure_world := md_secure_world m |}.

(** The content of [config.json], or the dictionary built from [--vmem]. *)
Record Config : Type := {
  image : option string;
  dtb : option Z;
  kernel_base : option Z;
  build : option Z
}.

(* ================================================================== *)
(** ** Collaborators: the operating system *)

(** What the module cannot decide on its own.  [present t p]: path [p]
    exists on disk at second [t] (a companion process may create files
    while the module waits).  An external interruption shows up as the
    [KeyboardInterrupt] a collaborator call raises. *)
Record World : Type := {
  present : nat -> string -> bool;
  load_config : result Config;
  Session_open : string -> option Z -> option Z -> result Session;
  Minidump_build : Minidump -> result bytes;
  today : nat -> string
}.

(** What the module changes: the seconds slept so far, the directories
    it made and the files it wrote. *)
Record OS : Type := {
  clock : nat;
  made_dirs : list string;
  written : list (string * bytes)
}.

Definition M (A : Type) : Type := OS -> outcome A * OS.

Definition ret {A} (a : A) : M A := fun st => (Return a, st).

Definition raise {A} (e : exn) : M A := fun st => (Raised e, st).

Definition sys_exit {A} (code : Z) : M A := fun st => (SysExit code, st).

Definition bind {A B} (c : M A) (k : A -> M B) : M B :=
  fun st =>
    match c st with
    | (Return a, st') => k a st'
    | (Raised e, st') => (Raised e, st')
    | (SysExit n, st') => (SysExit n, st')
    end.

Definition call {A} (r : result A) : M A :=
  match r with
  | Ok a => ret a
  | Raise e => raise e
  end.

Notation "x <- c ;; k" := (bind c (fun x => k))
  (at level 61, c at next level, right associativity).
Notation "c ;;; k" := (bind c (fun _ => k))
  (at level 61, right associativity).

Definition os_path_exists (w : World) (p : string) : M bool :=
  fun st =>
    (Return (present w (clock st) p
             || existsb (String.eqb p) (made_dirs st)
             || existsb (fun f => String.eqb p (fst f)) (written st)), st).

Definition time_sleep (secs : nat) : M unit :=
  fun st =>
    (Return tt, {| clock := clock st + secs; made_dirs := made_dirs st;
                   written := written st |}).

Definition os_mkdir (w : World) (p : string) : M unit :=
  e <- os_path_exists w p ;;
  if e then raise (FileExistsError p)
  else fun st =>
         (Return tt, {| clock := clock st; made_dirs := p :: made_dirs st;
                        written := written st |}).

(** [with open(filepath, 'wb') as f: f.write(data)]: the file can be
    created only inside a directory that exists. *)
Definition write_file (w : World) (filepath : string) (data : bytes) : M unit :=
  e <- (if String.eqb (Py.dirname filepath) EmptyString then ret true
        else os_path_exists w (Py.dirname filepath)) ;;
  if e then fun st =>
         (Return tt, {| clock := clock st; made_dirs := made_dirs st;
                        written := (filepath, data) :: written st |})
  else raise (FileNotFoundError filepath).

(* ================================================================== *)
(** ** [read_systeminfo] and [read_memoryinfo] *)

Definition read_systeminfo (s : Session) (build : Z) : SystemInfo :=
  let major := metadata_major s in
  let minor := metadata_minor s in
  {| MajorVersion := major; MinorVersion := minor; BuildNumber := build |}.

Definition MEM_MAPPED : Z := 0x40000.
Definition MEM_PRIVATE : Z := 0x20000.

Definition read_memoryinfo (s : Session) (pid : Z) : list MemoryInfo :=
  fold_left
    (fun memoryinfo_list d =>
       match vad_start d with
       | None => memoryinfo_list
       | Some start =>
           let mi_Type :=
             if String.eqb (vad_type d) "Mapped" then MEM_MAPPED
             else if String.eqb (vad_type d) "Private" then MEM_PRIVATE
             else 0 in
           memoryinfo_list ++
             [ {| BaseAddress := start;
                  AllocationBase := 0;
                  AllocationProtect := vad_protect d;
                  RegionSize := vad_end d - start + 1;
                  Protect := vad_protect d;
                  State := 0;
                  Type_ := mi_Type |} ]
       end)
    (vaddump s pid) [].

(* ================================================================== *)
(** ** [read_memory_fast] *)

(** The inner loop over [mem_list] (with its [break]): every live range
    that meets the module is entered into [d] as ['mem']. *)
Fixpoint available (d : I.IntervalDict) (mod_ : I.Interval) (mod_end : Z)
    (mem_list : list (Z * Z)) : I.IntervalDict :=
  match mem_list with
  | [] => d
  | (start, end_) :: rest =>
      let mem := I.closedopen start end_ in
      let d := if negb (I.eqb (I.inter mem mod_) I.empty)
               then I.setitem d mem "mem" else d in
      if mod_end <? start then d else available d mod_ mod_end rest
  end.

(** The body of the loop over [module_list]: [d.find('fill')] for one
    module. *)
Definition module_holes (mem_list : list (Z * Z)) (m : module) : I.Interval :=
  let '(_, mod_start, size) := m in
  let mod_ := I.closedopen mod_start (mod_start + size) in
  let d := I.setitem [] mod_ "fill" in
  I.find (available d mod_ (mod_start + size) mem_list) "fill".

(** The "holes" that need zero filling, over all modules. *)
Definition find_filling (module_list : list module) (mem_list : list (Z * Z))
  : I.Interval :=
  fold_left (fun filling m => I.union filling (module_holes mem_list m))
            module_list I.empty.

(** [(x.lower, x.upper, 'pad')] for a piece [x] of [filling]. *)
Definition pad_op (x : I.atom) : operation :=
  (I.lower x, I.upper x, "pad"%string).

(** [(start, end, 'mem')] for a live range. *)
Definition mem_op (r : Z * Z) : operation := (fst r, snd r, "mem"%string).

(** What to read, what to zero fill. *)
Definition operations (module_list : list module) (mem_list : list (Z * Z))
  : list operation :=
  map pad_op (find_filling module_list mem_list) ++ map mem_op mem_list.

(** The interval reconciliation step: from the module list and the live
    ranges of the address space to [sorted(operations)]. *)
Definition reconcile (module_list : list module) (ranges : list (Z * Z))
  : list operation :=
  let module_list := Py.sorted module_leb module_list in
  let mem_list := Py.sorted Py.pair_leb ranges in
  Py.sorted op_leb (operations module_list mem_list).

(** One round of the read-and-fill loop. *)
Definition read_fill_step (read : Z -> Z -> bytes)
    (acc : list MemoryInfo * list block) (o : operation)
  : list MemoryInfo * list block :=
  let '(memoryinfo_list, memory64_list) := acc in
  let '(start, end_, op) := o in
  let size := end_ - start in
  let mi := {| BaseAddress := start;
               AllocationBase := 0;
               AllocationProtect := 0;
               RegionSize := size;
               Protect := 0;
               State := 0;
               Type_ := 0 |} in
  let data := if String.eqb op "fill" then read start size
              else read start size in
  (memoryinfo_list ++ [mi], memory64_list ++ [(start, size, data)]).

Definition read_fill (read : Z -> Z -> bytes) (ops : list operation)
  : list MemoryInfo * list block :=
  fold_left (read_fill_step read) ops ([], []).

Definition read_memory_fast (s : Session) (module_list : list module)
  : result (list MemoryInfo * list block) :=
  match pslist_lsass s with
  | [] => Raise StopIteration
  | task :: _ =>
      let addr_space := get_process_address_space task in
      let max_memory := highest_usermode_address s in
      let ranges := get_address_ranges addr_space max_memory in
      Ok (read_fill (addr_space_read addr_space) (reconcile module_list ranges))
  end.

(* ================================================================== *)
(** ** [read_modulelist] *)

Definition read_modulelist (s : Session) (pid : Z) : list module :=
  fold_left
    (fun module_list dll =>
       match dll_path dll with
       | Some path =>
           if (1 <? String.length path)%nat
           then module_list ++ [(path, base dll, size dll)]
           else module_list
       | None => module_list
       end)
    (dlllist s pid) [].

(* ================================================================== *)
(** ** [ensureFileExist] *)

(** The [for x in range(120)] loop with its [else] branch; [attempts] is
    the number of checks still to make. *)
Fixpoint poll (w : World) (path : string) (attempts : nat) : M unit :=
  match attempts with
  | O => raise (Exception ("File does not exist: " ++ path))
  | S n =>
      e <- os_path_exists w path ;;
      if e then ret tt
      else time_sleep 1 ;;; poll w path n
  end.

Definition ensureFileExist (w : World) (path : string) : M unit :=
  poll w path 120.

(* ================================================================== *)
(** ** [read_secure_world] and [_cg] *)

Definition PAGE_SIZE : Z := 4096.
Definition PAGE_BITS : Z := 12.

Fixpoint read_pages (read : Z -> Z -> result bytes) (pages : list Z)
    (secure_world : list bytes) : result (list bytes) :=
  match pages with
  | [] => Ok secure_world
  | addr :: rest =>
      match read addr PAGE_SIZE with
      | Ok data => read_pages read rest (secure_world ++ [data])
      | Raise e => Raise e
      end
  end.

Definition read_secure_world (s : Session) (secure_world_pages : list Z)
  : result bytes :=
  match read_pages (base_read s) secure_world_pages [] with
  | Ok secure_world => Ok (List.concat secure_world)
  | Raise e => Raise e
  end.

(** [image_size] after the loop over [phys_map]: the end of the last row. *)
Definition physical_size (s : Session) : Z :=
  fold_left (fun _ row => snd (fst row)) (phys_map s) 0.

Definition is_secure_world (pfn_obj : MMPFN) : bool :=
  (ReferenceCount pfn_obj =? 2) && (ShareCount pfn_obj =? 1)
  && (PteAddress pfn_obj =? 0).

(** The scan over the page-frame numbers. *)
Definition find_secure_world_pages (s : Session) (image_size : Z) : list Z :=
  fold_left
    (fun secure_world_pages pfn =>
       let pfn_obj := MmPfnDatabase s pfn in
       if is_secure_world pfn_obj
       then secure_world_pages ++ [Z.shiftl pfn PAGE_BITS]
       else secure_world_pages)
    (Py.range (image_size / 0x1000)) [].

Definition secure_world_path (w : World) (label : string) : M string :=
  fun st =>
    (Return ("output/" ++ label ++ "-" ++ today w (clock st)
             ++ "-secure-world.raw")%string, st).

Definition _cg (w : World) (s : Session) (vmem_filepath label : string)
  : M bytes :=
  let image_size := physical_size s in
  let secure_world_pages := find_secure_world_pages s image_size in
  secure_world <- call (read_secure_world s secure_world_pages) ;;
  filepath <- secure_world_path w label ;;
  write_file w filepath secure_world ;;;
  ret secure_world.

(* ================================================================== *)
(** ** [_dump] and [dump] *)

Definition is_process (wanted : string) (row : EPROCESS) : bool :=
  String.eqb (Py.lower (name row)) wanted.

(** The configuration: built from [--vmem] after the extension check, or
    awaited and loaded from [config.json].  [if vmem:] holds for a
    non-empty string. *)
Definition get_config (w : World) (vmem : option string) : M Config :=
  match vmem with
  | Some (String _ _ as path) =>
      let '(image_base, image_ext) := Py.splitext path in
      if negb (String.eqb image_ext ".vmem") then sys_exit 1
      else ret {| image := Some path; dtb := None; kernel_base := None;
                  build := None |}
  | _ =>
      ensureFileExist w "config.json" ;;;
      call (load_config w)
  end.

(** The wait for [config['image']] and the session bound to it. *)
Definition open_image (w : World) (config : Config) : M (Config * Session) :=
  image_path <- match image config with
                | Some p => ret p
                | None => raise (KeyError "image")
                end ;;
  ensureFileExist w image_path ;;;
  s <- call (Session_open w image_path (dtb config) (kernel_base config)) ;;
  ret (config, s).

(** AcquireSession: the configuration, then the image and its session. *)
Definition acquire_session (w : World) (vmem : option string)
  : M (Config * Session) :=
  config <- get_config w vmem ;;
  open_image w config.

(** LocateTarget: the first row named lsass.exe, or [sys.exit(1)]. *)
Definition find_lsass (s : Session) : M Z :=
  match List.find (is_process "lsass.exe") (pslist_PsActiveProcessHead s) with
  | Some row => ret (pid row)
  | None => sys_exit 1
  end.

(** DetectIsolation and ExtractSecureWorld. *)
Definition credential_guard (w : World) (s : Session) (label : string)
    (vmem : option string) (minidump : Minidump) : M Minidump :=
  match List.find (is_process "lsaiso.exe") (pslist s) with
  | Some _ =>
      match vmem with
      | Some (String _ _ as path) =>
          secure_world <- _cg w s path label ;;
          ret (set_secure_world minidump secure_world)
      | _ => ret minidump
      end
  | None => ret minidump
  end.

(** GatherIdentity: the build number from the configuration, else from
    the first [imageinfo] row whose key is 'NT Build', else 0. *)
Definition get_build (config : Config) (s : Session) : M Z :=
  match build config with
  | Some b => ret b
  | None =>
      match List.find (fun x => match key x with
                                | Some k => String.eqb k "NT Build"
                                | None => false
                                end) (imageinfo s) with
      | Some x => call (value_build x)
      | None => ret 0
      end
  end.

(** From DetectIsolation to the last setter call. *)
Definition gather (w : World) (label : string) (vmem : option string)
    (config : Config) (s : Session) (lsass_pid : Z) : M Minidump :=
  let minidump := Minidump_new in
  minidump <- credential_guard w s label vmem minidump ;;
  build <- get_build config s ;;
  let systeminfo := read_systeminfo s build in
  let module_list := read_modulelist s lsass_pid in
  mm <- call (read_memory_fast s module_list) ;;
  let '(memoryinfo_list, memory64_list) := mm in
  let minidump := set_systeminfo minidump systeminfo in
  let minidump := set_memoryinfo_list minidump memoryinfo_list in
  let minidump := set_memory64 minidump memory64_list in
  let minidump := set_module_list minidump module_list in
  ret minidump.

(** LocateTarget, then the rest of the gathering, in a session. *)
Definition locate_and_gather (w : World) (label : string)
    (vmem : option string) (cs : Config * Session) : M Minidump :=
  lsass_pid <- find_lsass (snd cs) ;;
  gather w label vmem (fst cs) (snd cs) lsass_pid.

(** [_dump] up to the last setter call: what is handed to the builder. *)
Definition assemble (w : World) (label : string) (vmem : option string)
  : M Minidump :=
  cs <- acquire_session w vmem ;;
  locate_and_gather w label vmem cs.

Definition dump_path (w : World) (label : string) : M string :=
  fun st =>
    (Return ("output/" ++ label ++ "-" ++ today w (clock st)
             ++ "-lsass.dmp")%string, st).

(** Persist: make [output] when it is missing, then write the container. *)
Definition persist (w : World) (label : string) (data : bytes) : M unit :=
  e <- os_path_exists w "output" ;;
  (if negb e then os_mkdir w "output" else ret tt) ;;;
  filepath <- dump_path w label ;;
  write_file w filepath data.

(** Assemble ([minidump.build()]) and Persist. *)
Definition build_and_persist (w : World) (label : string) (minidump : Minidump)
  : M unit :=
  data <- call (Minidump_build w minidump) ;;
  persist w label data.

Definition _dump (w : World) (label : string) (vmem : option string) : M unit :=
  minidump <- assemble w label vmem ;;
  build_and_persist w label minidump.

Definition dump (w : World) (label : string) (vmem : option string) : M unit :=
  fun st =>
    match _dump w label vmem st with
    | (Raised KeyboardInterrupt, st') => (Return tt, st')
    | r => r
    end.

(** The status the interpreter ends with when [dump] was its last call:
    0 after a return, the code of [sys.exit], and 1 when an exception
    reaches the top level. *)
Definition exit_status (o : outcome unit) : Z :=
  match o with
  | Return _ => 0
  | SysExit code => code
  | Raised _ => 1
  end.

(* ================================================================== *)
(** ** Vocabulary of the properties *)

Definition op_start (o : operation) : Z := fst (fst o).
Definition op_end (o : operation) : Z := snd (fst o).
Definition op_kind (o : operation) : string := snd o.

(** Address [a] lies in the range of operation [o]. *)
Definition covers (o : operation) (a : Z) : Prop := op_start o <= a < op_end o.

Definition covered (ops : list operation) (a : Z) : Prop :=
  exists o, In o ops /\ covers o a.

Definition op_disjoint (o1 o2 : operation) : Prop :=
  forall a, ~ (covers o1 a /\ covers o2 a).

(** Address [a] lies in the range [[base, base + size)] of module [m]. *)
Definition in_module (m : module) (a : Z) : Prop :=
  snd (fst m) <= a < snd (fst m) + snd m.

Definition in_modules (module_list : list module) (a : Z) : Prop :=
  exists m, In m module_list /\ in_module m a.

(** Address [a] lies in the live range [[start, end)]. *)
Definition in_range (r : Z * Z) (a : Z) : Prop := fst r <= a < snd r.

Definition in_live (ranges : list (Z * Z)) (a : Z) : Prop :=
  exists r, In r ranges /\ in_range r a.

Definition range_disjoint (r1 r2 : Z * Z) : Prop :=
  forall a, ~ (in_range r1 a /\ in_range r2 a).

(** The operations tile the union of the module ranges and the live
    ranges: no two of them overlap, together they cover exactly that
    union, and they are ordered by start address. *)
Definition tiles (module_list : list module) (ranges : list (Z * Z))
    (ops : list operation) : Prop :=
  ForallOrdPairs op_disjoint ops
  /\ (forall a, covered ops a <-> in_modules module_list a \/ in_live ranges a)
  /\ StronglySorted (fun x y => op_start x <= op_start y) ops.

Definition block_start (b : block) : Z := fst (fst b).
Definition block_size (b : block) : Z := snd (fst b).
Definition block_data (b : block) : bytes := snd b.

Definition total (l : list Z) : Z := fold_right Z.add 0 l.

(** The region record and the content block the read-and-fill loop
    builds for operation [o]. *)
Definition region_of (o : operation) : MemoryInfo :=
  {| BaseAddress := op_start o;
     AllocationBase := 0;
     AllocationProtect := 0;
     RegionSize := op_end o - op_start o;
     Protect := 0;
     State := 0;
     Type_ := 0 |}.

Definition block_of (read : Z -> Z -> bytes) (o : operation) : block :=
  (op_start o, op_end o - op_start o,
   read (op_start o) (op_end o - op_start o)).

Definition zero_metadata (mi : MemoryInfo) : Prop :=
  AllocationBase mi = 0 /\ AllocationProtect mi = 0 /\ Protect mi = 0
  /\ State mi = 0 /\ Type_ mi = 0.

(** [c] never ends in [sys.exit]. *)
Definition no_exit {A} (c : M A) : Prop :=
  forall st code st', c st <> (SysExit code, st').

(** The state after [k] more seconds of sleep, and what
    [os.path.exists path] answers in a state. *)
Definition slept (k : nat) (st : OS) : OS :=
  {| clock := clock st + k; made_dirs := made_dirs st; written := written st |}.

Definition exists_now (w : World) (path : string) (st : OS) : bool :=
  present w (clock st) path
  || existsb (String.eqb path) (made_dirs st)
  || existsb (fun f => String.eqb path (fst f)) (written st).

(** The local image path was given and does not end in [.vmem]. *)
Definition bad_extension (vmem : option string) : Prop :=
  exists path, vmem = Some path /\ path <> EmptyString
               /\ snd (Py.splitext path) <> ".vmem"%string.

(** The session was opened and its process enumeration has no lsass.exe. *)
Definition lsass_not_found (w : World) (vmem : option string) (st : OS) : Prop :=
  exists config s st',
    acquire_session w vmem st = (Return (config, s), st')
    /\ List.find (is_process "lsass.exe") (pslist_PsActiveProcessHead s) = None.

(** The exit status is non-zero exactly for a bad extension or a missing
    lsass.exe. *)
Definition exits_nonzero_only_for_preconditions (w : World) (label : string)
    (vmem : option string) (st : OS) : Prop :=
  exit_status (fst (dump w label vmem st)) <> 0
  <-> bad_extension vmem \/ lsass_not_found w vmem st.

(** A session that differs from [s] in the rows of [vaddump] only, and a
    world whose sessions are changed that way. *)
Definition set_vaddump (f : Z -> list vad_row) (s : Session) : Session :=
  {| metadata_major := metadata_major s;
     metadata_minor := metadata_minor s;
     pslist_PsActiveProcessHead := pslist_PsActiveProcessHead s;
     pslist := pslist s;
     pslist_lsass := pslist_lsass s;
     highest_usermode_address := highest_usermode_address s;
     dlllist := dlllist s;
     vaddump := f;
     imageinfo := imageinfo s;
     phys_map := phys_map s;
     MmPfnDatabase := MmPfnDatabase s;
     base_read := base_read s |}.

Definition with_vaddump (f : Z -> list vad_row) (w : World) : World :=
  {| present := present w;
     load_config := load_config w;
     Session_open := fun p d k =>
       match Session_open w p d k with
       | Ok s => Ok (set_vaddump f s)
       | Raise e => Raise e
       end;
     Minidump_build := Minidump_build w;
     today := today w |}.

(* ================================================================== *)
(** ** A small capture to run the definitions on *)

Definition demo_space : AddressSpace :=
  {| get_address_ranges := fun _ => [(30, 45); (5, 10)];
     page_read := fun start size =>
       if start =? 5 then Some (repeat x41 (Z.to_nat size)) else None |}.

Definition no_space : AddressSpace :=
  {| get_address_ranges := fun _ => []; page_read := fun _ _ => None |}.

Definition demo_system : EPROCESS :=
  {| name := "System"; pid := 4; get_process_address_space := no_space |}.

Definition demo_lsaiso : EPROCESS :=
  {| name := "LsaIso.exe"; pid := 616; get_process_address_space := no_space |}.

Definition demo_lsass : EPROCESS :=
  {| name := "lsass.exe"; pid := 624; get_process_address_space := demo_space |}.

(** Ten physical pages; pages 3 and 7 carry the secure-world marks.
    [read] is the physical read of the image. *)
Definition demo_session (read : Z -> Z -> result bytes) : Session :=
  {| metadata_major := 10;
     metadata_minor := 0;
     pslist_PsActiveProcessHead := [demo_system; demo_lsass];
     pslist := [demo_system; demo_lsaiso; demo_lsass];
     pslist_lsass := [demo_lsass];
     highest_usermode_address := 0x7ffffffeffff;
     dlllist := fun _ =>
       [ {| dll_path := Some "b.dll"%string; base := 40; size := 10 |};
         {| dll_path := None; base := 0; size := 0 |};
         {| dll_path := Some "a.dll"%string; base := 0; size := 20 |} ];
     vaddump := fun _ => [];
     imageinfo := [ {| key := Some "NT Build"%string; value_build := Ok 19041 |} ];
     phys_map := [(0, 0x9000, 9); (0x9000, 0xA000, 1)];
     MmPfnDatabase := fun pfn =>
       if (pfn =? 3) || (pfn =? 7)
       then {| ReferenceCount := 2; ShareCount := 1; PteAddress := 0 |}
       else {| ReferenceCount := 1; ShareCount := 1; PteAddress := 0x1000 |};
     base_read := read |}.

Definition good_read (addr size : Z) : result bytes :=
  Ok (repeat (if addr =? 0x3000 then x33 else x77) (Z.to_nat size)).

(** The physical read fails on page 7. *)
Definition bad_read (addr size : Z) : result bytes :=
  if addr =? 0x7000 then Raise (CollaboratorError "read")
  else good_read addr size.

(** The image shows up after two seconds; [output_there] tells whether
    the directory [output] exists beforehand. *)
Definition demo_world (output_there : bool) (read : Z -> Z -> result bytes)
  : World :=
  {| present := fun t p =>
       (String.eqb p "lsass.vmem" && (2 <=? t)%nat)
       || (String.eqb p "output" && output_there);
     load_config := Raise (FileNotFoundError "config.json");
     Session_open := fun _ _ _ => Ok (demo_session read);
     Minidump_build := fun _ => Ok [x4d; x44; x4d; x50];
     today := fun _ => "2020-01-01"%string |}.

(** The image never shows up. *)
Definition absent_world : World :=
  {| present := fun _ _ => false;
     load_config := Raise (FileNotFoundError "config.json");
     Session_open := fun _ _ _ => Ok (demo_session good_read);
     Minidump_build := fun _ => Ok [x4d; x44; x4d; x50];
     today := fun _ => "2020-01-01"%string |}.

Definition boot : OS := {| clock := 0; made_dirs := []; written := [] |}.

(** [st'] has the directories and files of [st]. *)
Definition same_files (st st' : OS) : Prop :=
  made_dirs st' = made_dirs st /\ written st' = written st.

(* ================================================================== *)
(** ** Vocabulary of the further properties *)

(** The state after the module wrote [data] to [filepath], and after it
    made directory [p]. *)
Definition wrote (filepath : string) (data : bytes) (st : OS) : OS :=
  {| clock := clock st; made_dirs := made_dirs st;
     written := (filepath, data) :: written st |}.

Definition made_dir (p : string) (st : OS) : OS :=
  {| clock := clock st; made_dirs := p :: made_dirs st;
     written := written st |}.

(** The names of the two output files in state [st]. *)
Definition secure_world_file (w : World) (label : string) (st : OS) : string :=
  "output/" ++ label ++ "-" ++ today w (clock st) ++ "-secure-world.raw".

Definition dump_file (w : World) (label : string) (st : OS) : string :=
  "output/" ++ label ++ "-" ++ today w (clock st) ++ "-lsass.dmp".

(** [vmem] does not pass [if vmem:]. *)
Definition falsy (vmem : option string) : Prop :=
  vmem = None \/ vmem = Some EmptyString.

(** A capture without lsass.exe, and one whose configuration file has no
    [image] key; a builder that is interrupted. *)
Definition no_lsass_world : World :=
  {| present := fun _ _ => true;
     load_config := Raise (FileNotFoundError "config.json");
     Session_open := fun _ _ _ =>
       Ok {| metadata_major := 10;
             metadata_minor := 0;
             pslist_PsActiveProcessHead := [demo_system];
             pslist := [demo_system; demo_lsaiso];
             pslist_lsass := [];
             highest_usermode_address := 0x7ffffffeffff;
             dlllist := fun _ => [];
             vaddump := fun _ => [];
             imageinfo := [];
             phys_map := [];
             MmPfnDatabase := fun _ =>
               {| ReferenceCount := 0; ShareCount := 0; PteAddress := 0 |};
             base_read := good_read |};
     Minidump_build := fun _ => Ok [x4d; x44; x4d; x50];
     today := fun _ => "2020-01-01"%string |}.

Definition no_image_key_world : World :=
  {| present := fun _ _ => true;
     load_config := Ok {| image := None; dtb := Some 0x1ad000;
                          kernel_base := None; build := Some 19041 |};
     Session_open := fun _ _ _ => Ok (demo_session good_read);
     Minidump_build := fun _ => Ok [x4d; x44; x4d; x50];
     today := fun _ => "2020-01-01"%string |}.

Definition interrupted_build_world : World :=
  {| present := fun _ _ => true;
     load_config := Raise (FileNotFoundError "config.json");
     Session_open := fun _ _ _ => Ok (demo_session good_read);
     Minidump_build := fun _ => Raise KeyboardInterrupt;
     today := fun _ => "2020-01-01"%string |}.

(** A configuration file naming the image, with [dtb] and [build]. *)
Definition config_file_world : World :=
  {| present := fun _ _ => true;
     load_config := Ok {| image := Some "remote.raw"%string;
                          dtb := Some 0x1ad000;
                          kernel_base := None; build := Some 17763 |};
     Session_open := fun p d k =>
       if String.eqb p "remote.raw" then Ok (demo_session good_read)
       else Raise (CollaboratorError "open");
     Minidump_build := fun _ => Ok [x4d; x44; x4d; x50];
     today := fun _ => "2020-01-01"%string |}.


(* ################################################################## *)
(** * Part II: properties *)

(* ================================================================== *)
(** ** [sorted] and [range] *)

Section SortedFacts.
Context {A : Type} (leb : A -> A -> bool).

Lemma insert_perm x l : Permutation (Py.insert leb x l) (x :: l).
Proof.
  induction l as [|y t IH]; simpl; [reflexivity|].
  destruct (leb x y); [reflexivity|].
  rewrite IH. apply perm_swap.
Qed.

Lemma sorted_perm l : Permutation (Py.sorted leb l) l.
Proof.
  induction l as [|x t IH]; simpl; [constructor|].
  rewrite insert_perm. now constructor.
Qed.

Lemma sorted_In l x : In x (Py.sorted leb l) <-> In x l.
Proof.
  split; apply Permutation_in; [|symmetry]; apply sorted_perm.
Qed.

Hypothesis leb_total : forall x y, leb x y = true \/ leb y x = true.

Lemma insert_Sorted x l :
  Sorted (fun a b => leb a b = true) l ->
  Sorted (fun a b => leb a b = true) (Py.insert leb x l).
Proof.
  induction 1 as [|y t Hs IH Hd]; simpl.
  - repeat constructor.
  - destruct (leb x y) eqn:E.
    + repeat constructor; assumption.
    + constructor; [assumption|].
      assert (Hyx : leb y x = true) by (destruct (leb_total x y); congruence).
      destruct t as [|z t']; simpl in *.
      * now constructor.
      * destruct (leb x z); constructor; trivial.
        now inversion Hd.
Qed.

Lemma sorted_Sorted l : Sorted (fun a b => leb a b = true) (Py.sorted leb l).
Proof.
  induction l; simpl; [constructor | now apply insert_Sorted].
Qed.

End SortedFacts.

Lemma range_In n k : In k (Py.range n) <-> 0 <= k < n.
Proof.
  unfold Py.range. rewrite in_map_iff. split.
  - intros (i & <- & Hi). apply in_seq in Hi. lia.
  - intros H. exists (Z.to_nat k). split; [lia|]. apply in_seq. lia.
Qed.

(** A symmetric relation that holds between all ordered pairs of a list
    holds between all ordered pairs of any rearrangement of it. *)
Lemma ForallOrdPairs_perm {A} (R : A -> A -> Prop) l l' :
  (forall x y, R x y -> R y x) ->
  Permutation l l' -> ForallOrdPairs R l -> ForallOrdPairs R l'.
Proof.
  intros Hsym HP. induction HP as [|x l l' HP IH|x y l|l l' l'' H1 IH1 H2 IH2];
    intros H.
  - exact H.
  - inversion H; subst. constructor; [|auto].
    eapply Permutation_Forall; eauto.
  - inversion H as [|? ? Hy Hr]; subst. inversion Hr as [|? ? Hx Hl]; subst.
    inversion Hy; subst.
    constructor; [constructor; auto|]. constructor; auto.
  - auto.
Qed.

Lemma ForallOrdPairs_app {A} (R : A -> A -> Prop) l1 l2 :
  ForallOrdPairs R l1 -> ForallOrdPairs R l2 ->
  (forall x y, In x l1 -> In y l2 -> R x y) ->
  ForallOrdPairs R (l1 ++ l2).
Proof.
  intros H1 H2 H12. induction H1 as [|x l Hx Hl IH]; simpl; [exact H2|].
  constructor.
  - apply Forall_app. split; [exact Hx|].
    apply Forall_forall. intros y Hy. apply H12; simpl; auto.
  - apply IH. intros a b Ha Hb. apply H12; simpl; auto.
Qed.

Lemma ForallOrdPairs_map {A B} (f : A -> B) (R : B -> B -> Prop) l :
  ForallOrdPairs (fun x y => R (f x) (f y)) l -> ForallOrdPairs R (map f l).
Proof.
  induction 1 as [|x l Hx Hl IH]; simpl; constructor; [|exact IH].
  apply Forall_map. exact Hx.
Qed.

(* ================================================================== *)
(** ** The interval package: pieces as address sets *)

Lemma contains_nil a : ~ I.contains [] a.
Proof. intros (x & [] & _). Qed.

Lemma contains_cons x s a :
  I.contains (x :: s) a <-> I.inA a x \/ I.contains s a.
Proof.
  unfold I.contains; simpl. split.
  - intros (y & [<-|Hy] & Ha); [now left | right; eauto].
  - intros [Ha|(y & Hy & Ha)]; eauto.
Qed.

Lemma contains_app s t a :
  I.contains (s ++ t) a <-> I.contains s a \/ I.contains t a.
Proof.
  unfold I.contains. split.
  - intros (x & Hx & Ha). apply in_app_or in Hx as [Hx|Hx]; eauto.
  - intros [(x & Hx & Ha)|(x & Hx & Ha)]; exists x; split; auto;
      apply in_or_app; auto.
Qed.

Lemma contains_perm s t a :
  Permutation s t -> I.contains s a -> I.contains t a.
Proof.
  intros HP (x & Hx & Ha). exists x. split; [|exact Ha].
  eapply Permutation_in; eauto.
Qed.

Lemma contains_filter s a :
  I.contains (filter I.atom_nonempty s) a <-> I.contains s a.
Proof.
  unfold I.contains. split.
  - intros (x & Hx & Ha). apply filter_In in Hx as [Hx _]. eauto.
  - intros (x & Hx & Ha). exists x. split; [|exact Ha].
    apply filter_In. split; [exact Hx|]. iv_unfold. lia.
Qed.

Lemma lower_leb_total x y :
  I.lower_leb x y = true \/ I.lower_leb y x = true.
Proof. iv_unfold. lia. Qed.

Lemma sorted_lower l : StronglySorted I.lower_le (Py.sorted I.lower_leb l).
Proof.
  apply Sorted_StronglySorted.
  - intros x y z. iv_unfold. lia.
  - eapply Sorted_ind with (P := fun l => Sorted I.lower_le l);
      [constructor | | apply (sorted_Sorted _ lower_leb_total)].
    intros a l' _ IH Hd. constructor; [exact IH|].
    destruct Hd; constructor. iv_unfold. lia.
Qed.

Lemma merge_from_head l : forall cur,
  exists u rest, I.merge_from cur l = (I.lower cur, u) :: rest.
Proof.
  induction l as [|y t IH]; intros cur; simpl.
  - exists (I.upper cur), []. now destruct cur.
  - destruct (I.lower y <=? I.upper cur).
    + destruct (IH (I.lower cur, Z.max (I.upper cur) (I.upper y)))
        as (u & r & E). exists u, r. exact E.
    + exists (I.upper cur), (I.merge_from y t). now destruct cur.
Qed.

Lemma merge_from_contains a l : forall cur,
  StronglySorted I.lower_le (cur :: l) ->
  (I.contains (I.merge_from cur l) a <-> I.inA a cur \/ I.contains l a).
Proof.
  induction l as [|y t IH]; intros cur HS; simpl.
  - rewrite contains_cons. reflexivity.
  - inversion HS as [|? ? HSt Hall]; subst.
    inversion Hall as [|? ? Hy Ht]; subst.
    inversion HSt as [|? ? HSt' Hall']; subst.
    destruct (I.lower y <=? I.upper cur) eqn:E.
    + apply Z.leb_le in E. rewrite IH.
      * rewrite (contains_cons y t). iv_unfold. intuition lia.
      * constructor; [exact HSt'|]. revert Ht. apply Forall_impl.
        intros z. iv_unfold. lia.
    + rewrite contains_cons, (IH y HSt), (contains_cons y t). reflexivity.
Qed.

Lemma merge_from_canonical l : forall cur,
  I.lower cur < I.upper cur ->
  Forall (fun x => I.lower x < I.upper x) l ->
  StronglySorted I.lower_le (cur :: l) ->
  I.canonical (I.merge_from cur l).
Proof.
  induction l as [|y t IH]; intros cur Hc Hne HS; simpl.
  - split; repeat constructor. exact Hc.
  - inversion HS as [|? ? HSt Hall]; subst.
    inversion Hall as [|? ? Hy Ht]; subst.
    inversion HSt as [|? ? HSt' Hall']; subst.
    inversion Hne as [|? ? Hyne Htne]; subst.
    destruct (I.lower y <=? I.upper cur) eqn:E.
    + apply Z.leb_le in E. apply IH; [iv_unfold; lia | exact Htne |].
      constructor; [exact HSt'|]. revert Ht. apply Forall_impl.
      intros z. iv_unfold. lia.
    + destruct (IH y Hyne Htne HSt) as [Hf Hs].
      split; constructor; trivial.
      destruct (merge_from_head t y) as (u & r & Eq). rewrite Eq.
      apply Z.leb_gt in E. constructor. iv_unfold. lia.
Qed.

Lemma mk_contains l a : I.contains (I.mk l) a <-> I.contains l a.
Proof.
  unfold I.mk. rewrite <- (contains_filter l).
  set (f := filter I.atom_nonempty l).
  assert (HS := sorted_lower f).
  assert (HP := sorted_perm I.lower_leb f).
  destruct (Py.sorted I.lower_leb f) as [|x t] eqn:E; simpl.
  - split; intros H; [now apply contains_nil in H|].
    apply (contains_perm _ _ a (Permutation_sym HP)) in H.
    now apply contains_nil in H.
  - rewrite (merge_from_contains a t x HS), <- contains_cons.
    split; apply contains_perm; [exact HP | symmetry; exact HP].
Qed.

Lemma mk_canonical l : I.canonical (I.mk l).
Proof.
  unfold I.mk.
  set (f := filter I.atom_nonempty l).
  assert (HS := sorted_lower f).
  assert (Hne : Forall (fun x => I.lower x < I.upper x) (Py.sorted I.lower_leb f)).
  { apply Forall_forall. intros x Hx. apply sorted_In in Hx.
    apply filter_In in Hx as [_ Hx]. iv_unfold. lia. }
  destruct (Py.sorted I.lower_leb f) as [|x t]; simpl.
  - split; constructor.
  - inversion Hne; subst. now apply merge_from_canonical.
Qed.

Lemma canonical_nonempty s :
  I.canonical s -> (I.is_empty s = true <-> forall a, ~ I.contains s a).
Proof.
  intros [Hne _]. destruct s as [|x t]; simpl.
  - split; [intros _ a; apply contains_nil | reflexivity].
  - split; [discriminate|]. intros H. exfalso. apply (H (I.lower x)).
    inversion Hne; subst. exists x. split; [now left|]. iv_unfold. lia.
Qed.

Lemma eqb_empty s : I.eqb s I.empty = I.is_empty s.
Proof. now destruct s. Qed.

(** In a normal form every piece lies apart from all later pieces. *)
Lemma canonical_strongly s :
  I.canonical s ->
  StronglySorted (fun x y => I.separated x y /\ I.lower y < I.upper y) s.
Proof.
  intros [Hne HS]. induction s as [|z t IH]; [constructor|].
  inversion Hne as [|? ? Hz Ht]; subst. inversion HS as [|? ? HSt Hd]; subst.
  specialize (IH Ht HSt). constructor; [exact IH|].
  destruct t as [|z' t']; [constructor|].
  inversion Hd; subst. inversion IH as [|? ? _ Hall]; subst.
  inversion Ht; subst.
  constructor; [split; assumption|].
  revert Hall. apply Forall_impl. intros w [Hw1 Hw2]. split; [|exact Hw2].
  iv_unfold. lia.
Qed.

(** Two pieces of a normal form are the same piece or lie apart. *)
Lemma canonical_apart s x y :
  I.canonical s -> In x s -> In y s ->
  x = y \/ I.separated x y \/ I.separated y x.
Proof.
  intros Hc Hx Hy. apply canonical_strongly in Hc.
  induction Hc as [|z t _ IH Hall]; [destruct Hx|].
  rewrite Forall_forall in Hall.
  destruct Hx as [<-|Hx], Hy as [<-|Hy]; auto.
  - right; left. now apply Hall.
  - right; right. now apply Hall.
Qed.

(** A run of addresses that a normal form contains lies inside a single
    piece of it. *)
Lemma canonical_connected s lo hi :
  I.canonical s -> lo < hi ->
  (forall a, lo <= a < hi -> I.contains s a) ->
  exists x, In x s /\ I.lower x <= lo /\ hi <= I.upper x.
Proof.
  intros Hc Hlt Hin.
  destruct (Hin lo ltac:(lia)) as (x & Hx & Hax).
  exists x. split; [exact Hx|]. split; [apply Hax|].
  destruct (Z_lt_le_dec (I.upper x) hi) as [Hu|Hu]; [exfalso | exact Hu].
  destruct (Hin (I.upper x)) as (y & Hy & Hay); [iv_unfold; lia|].
  destruct (canonical_apart s x y Hc Hx Hy) as [->|[H|H]]; iv_unfold; lia.
Qed.

(* ================================================================== *)
(** ** The interval package: set operations *)

Lemma closedopen_contains lo hi a :
  I.contains (I.closedopen lo hi) a <-> lo <= a < hi.
Proof.
  unfold I.closedopen. rewrite mk_contains, contains_cons.
  split; [intros [H|H]; [exact H | now apply contains_nil in H] | now left].
Qed.

Lemma union_contains s t a :
  I.contains (I.union s t) a <-> I.contains s a \/ I.contains t a.
Proof. unfold I.union. now rewrite mk_contains, contains_app. Qed.

Lemma inter_contains s t a :
  I.contains (I.inter s t) a <-> I.contains s a /\ I.contains t a.
Proof.
  unfold I.inter. rewrite mk_contains. unfold I.contains. split.
  - intros (z & Hz & Ha). apply in_flat_map in Hz as (x & Hx & Hz).
    apply in_map_iff in Hz as (y & <- & Hy).
    split; [exists x | exists y]; (split; [assumption|]); iv_unfold; lia.
  - intros [(x & Hx & Hax) (y & Hy & Hay)].
    exists (I.atom_and x y). split; [|iv_unfold; lia].
    apply in_flat_map. exists x. split; [exact Hx|]. now apply in_map.
Qed.

Lemma sub_atom_contains s y a :
  I.contains (I.sub_atom s y) a <-> I.contains s a /\ ~ I.inA a y.
Proof.
  unfold I.sub_atom, I.contains. split.
  - intros (z & Hz & Ha). apply in_flat_map in Hz as (x & Hx & Hz).
    split; [exists x; split; [exact Hx|]|];
      destruct Hz as [<-|[<-|[]]]; iv_unfold; lia.
  - intros [(x & Hx & Hax) Hn].
    destruct (Z_lt_le_dec a (I.lower y)) as [Hl|Hl].
    + exists (I.lower x, Z.min (I.upper x) (I.lower y)).
      split; [|iv_unfold; lia].
      apply in_flat_map. exists x. split; [exact Hx | now left].
    + exists (Z.max (I.lower x) (I.upper y), I.upper x).
      split; [|iv_unfold; lia].
      apply in_flat_map. exists x. split; [exact Hx | right; now left].
Qed.

Lemma diff_contains s t a :
  I.contains (I.diff s t) a <-> I.contains s a /\ ~ I.contains t a.
Proof.
  unfold I.diff. rewrite mk_contains. revert s.
  induction t as [|y t IH]; intros s; simpl.
  - split; [intros H; split; [exact H | apply contains_nil] | tauto].
  - rewrite IH, sub_atom_contains, contains_cons. tauto.
Qed.

Lemma overlaps_false s t :
  I.overlaps s t = false ->
  forall a, ~ (I.contains s a /\ I.contains t a).
Proof.
  unfold I.overlaps. intros H a Ha. apply negb_false_iff in H.
  assert (Hc : I.canonical (I.inter s t)) by apply mk_canonical.
  destruct (canonical_nonempty _ Hc) as [Hno _].
  apply (Hno H a). now apply inter_contains.
Qed.

(** *** [IntervalDict] *)

Lemma find_contains d v a : I.contains (I.find d v) a <-> I.labelled d v a.
Proof.
  unfold I.find, I.labelled. rewrite mk_contains. unfold I.contains. split.
  - intros (x & Hx & Ha). apply in_flat_map in Hx as (kv & Hkv & Hx).
    destruct (String.eqb_spec (snd kv) v) as [E|E]; [|destruct Hx].
    exists kv. eauto.
  - intros (kv & Hkv & E & x & Hx & Ha). exists x. split; [|exact Ha].
    apply in_flat_map. exists kv. split; [exact Hkv|].
    subst v. now rewrite String.eqb_refl.
Qed.

Lemma has_value_false v d :
  I.has_value v d = false -> forall a, ~ I.labelled d v a.
Proof.
  unfold I.has_value. intros H a (kv & Hkv & E & _).
  assert (Hex : existsb (fun kv => String.eqb v (snd kv)) d = true).
  { apply existsb_exists. exists kv. split; [exact Hkv|].
    now rewrite E, String.eqb_refl. }
  congruence.
Qed.

(** After [d[key] = value], the addresses I.labelled [value] are those
    I.labelled so before together with those of [key]. *)
Lemma setitem_same d key value a :
  I.labelled (I.setitem d key value) value a
  <-> I.labelled d value a \/ I.contains key a.
Proof.
  unfold I.setitem. destruct key as [|k0 key'] eqn:Ek; simpl I.is_empty; cbv iota.
  - split; [now left | intros [H|H]; [exact H | now apply contains_nil in H]].
  - rewrite <- Ek. clear Ek k0 key'.
    set (step := fun kv : I.Interval * string => _).
    assert (Hd' : I.labelled (flat_map step d) value a
                  <-> I.labelled d value a
                      \/ (I.has_value value d = true /\ I.contains key a)).
    { unfold I.labelled. split.
      - intros (kv' & Hkv' & E & Ha).
        apply in_flat_map in Hkv' as (kv & Hkv & Hin). unfold step in Hin.
        destruct (String.eqb_spec value (snd kv)) as [Ev|Ev].
        + destruct Hin as [<-|[]]. simpl in *.
          apply union_contains in Ha as [Ha|Ha]; [left; exists kv; auto|].
          right. split; [|exact Ha]. apply existsb_exists. exists kv.
          split; [exact Hkv|]. now rewrite Ev, String.eqb_refl.
        + exfalso. destruct (I.overlaps (fst kv) key).
          * destruct (I.is_empty (I.diff (fst kv) key)); [destruct Hin|].
            destruct Hin as [<-|[]]. simpl in E. congruence.
          * destruct Hin as [<-|[]]. congruence.
      - intros [(kv & Hkv & E & Ha)|[Hv Ha]].
        + exists (I.union (fst kv) key, snd kv). split; [|split; [exact E|]].
          * apply in_flat_map. exists kv. split; [exact Hkv|]. unfold step.
            rewrite <- E, String.eqb_refl. now left.
          * simpl. apply union_contains. now left.
        + apply existsb_exists in Hv as (kv & Hkv & E).
          apply String.eqb_eq in E.
          exists (I.union (fst kv) key, snd kv). split; [|split; [auto|]].
          * apply in_flat_map. exists kv. split; [exact Hkv|]. unfold step.
            rewrite E, String.eqb_refl. now left.
          * simpl. apply union_contains. now right. }
    destruct (I.has_value value d) eqn:Hv.
    + rewrite Hd'. tauto.
    + assert (Hno := has_value_false _ _ Hv).
      split.
      * intros (kv & Hkv & E & Ha). apply in_app_or in Hkv as [Hkv|Hkv].
        -- left. assert (H : I.labelled (flat_map step d) value a)
             by (exists kv; auto).
           apply Hd' in H as [H|[H _]]; [exact H | discriminate].
        -- destruct Hkv as [<-|[]]. now right.
      * intros [H|H]; [now apply Hno in H|].
        exists (key, value). split; [apply in_or_app; right; now left|].
        split; [reflexivity | exact H].
Qed.

(** After [d[key] = value], the addresses carrying another label are
    those that carried it before and lie outside [key]. *)
Lemma setitem_other d key value v a :
  value <> v ->
  (I.labelled (I.setitem d key value) v a
   <-> I.labelled d v a /\ ~ I.contains key a).
Proof.
  intros Hne. unfold I.setitem.
  destruct key as [|k0 key'] eqn:Ek; simpl I.is_empty; cbv iota.
  - split; [intros H; split; [exact H | apply contains_nil] | tauto].
  - rewrite <- Ek. clear Ek k0 key'.
    set (step := fun kv : I.Interval * string => _).
    assert (Hd' : I.labelled (flat_map step d) v a
                  <-> I.labelled d v a /\ ~ I.contains key a).
    { unfold I.labelled. split.
      - intros (kv' & Hkv' & E & Ha).
        apply in_flat_map in Hkv' as (kv & Hkv & Hin). unfold step in Hin.
        destruct (String.eqb_spec value (snd kv)) as [Ev|Ev].
        + destruct Hin as [<-|[]]. simpl in E. congruence.
        + destruct (I.overlaps (fst kv) key) eqn:Ho.
          * destruct (I.is_empty (I.diff (fst kv) key)); [destruct Hin|].
            destruct Hin as [<-|[]]. simpl in *.
            apply diff_contains in Ha as [Ha Hn].
            split; [exists kv; auto | exact Hn].
          * destruct Hin as [<-|[]].
            split; [exists kv; auto|].
            intros Hk. now apply (overlaps_false _ _ Ho a).
      - intros [(kv & Hkv & E & Ha) Hn].
        assert (Ev : String.eqb value (snd kv) = false)
          by (apply String.eqb_neq; congruence).
        destruct (I.overlaps (fst kv) key) eqn:Ho.
        + assert (Hd : I.contains (I.diff (fst kv) key) a)
            by (apply diff_contains; auto).
          exists (I.diff (fst kv) key, snd kv). split; [|split; [exact E|exact Hd]].
          apply in_flat_map. exists kv. split; [exact Hkv|]. unfold step.
          rewrite Ev, Ho.
          destruct (I.diff (fst kv) key) eqn:Ed; [now apply contains_nil in Hd|].
          now left.
        + exists kv. split; [|auto].
          apply in_flat_map. exists kv. split; [exact Hkv|]. unfold step.
          rewrite Ev, Ho. now left. }
    destruct (I.has_value value d).
    + exact Hd'.
    + rewrite <- Hd'. unfold I.labelled. split.
      * intros (kv & Hkv & E & Ha). apply in_app_or in Hkv as [Hkv|Hkv].
        -- exists kv. auto.
        -- destruct Hkv as [<-|[]]. simpl in E. congruence.
      * intros (kv & Hkv & E & Ha). exists kv. split; [|auto].
        apply in_or_app. now left.
Qed.

(* ================================================================== *)
(** ** [read_memory_fast]: the holes of the modules *)

Lemma pair_leb_total x y : Py.pair_leb x y = true \/ Py.pair_leb y x = true.
Proof. unfold Py.pair_leb. lia. Qed.

Lemma mem_list_sorted ranges :
  StronglySorted (fun x y : Z * Z => fst x <= fst y)
                 (Py.sorted Py.pair_leb ranges).
Proof.
  apply Sorted_StronglySorted; [intros x y z; lia|].
  eapply Sorted_ind
    with (P := fun l => Sorted (fun x y : Z * Z => fst x <= fst y) l);
    [constructor | | apply (sorted_Sorted _ pair_leb_total)].
  intros a l' _ IH Hd. constructor; [exact IH|].
  destruct Hd as [|b l'' Hb]; constructor. unfold Py.pair_leb in Hb. lia.
Qed.

Lemma in_live_sorted ranges a :
  in_live (Py.sorted Py.pair_leb ranges) a <-> in_live ranges a.
Proof.
  unfold in_live. split; intros (r & Hr & Ha); exists r;
    (split; [apply sorted_In in Hr || apply sorted_In; exact Hr | exact Ha]).
Qed.

(** The inner loop removes from the ['fill'] part exactly the addresses
    of the live ranges; the [break] skips only ranges that start beyond
    the module's end. *)
Lemma available_fill mod_ mod_end a : forall mem_list d,
  StronglySorted (fun x y : Z * Z => fst x <= fst y) mem_list ->
  (forall b, I.labelled d "fill" b -> I.contains mod_ b) ->
  (forall b, I.contains mod_ b -> b < mod_end) ->
  (I.labelled (available d mod_ mod_end mem_list) "fill" a
   <-> I.labelled d "fill" a /\ ~ in_live mem_list a).
Proof.
  induction mem_list as [|[start end_] rest IH]; intros d HS Hsub Hend; simpl.
  - split; [intros H; split; [exact H | now intros (r & [] & _)] | tauto].
  - inversion HS as [|? ? HSr Hall]; subst.
    set (mem := I.closedopen start end_).
    set (d1 := if negb (I.eqb (I.inter mem mod_) I.empty)
               then I.setitem d mem "mem" else d).
    assert (Hd1 : forall b, I.labelled d1 "fill" b
                  <-> I.labelled d "fill" b /\ ~ (start <= b < end_)).
    { intros b. unfold d1. rewrite eqb_empty.
      destruct (I.is_empty (I.inter mem mod_)) eqn:Em; simpl.
      - split; [|tauto]. intros H. split; [exact H|]. intros Hb.
        assert (Hc : I.canonical (I.inter mem mod_)) by apply mk_canonical.
        destruct (canonical_nonempty _ Hc) as [Hno _].
        apply (Hno Em b). apply inter_contains.
        split; [now apply closedopen_contains | now apply Hsub].
      - rewrite setitem_other by discriminate.
        unfold mem. now rewrite closedopen_contains. }
    assert (Hlive : in_live ((start, end_) :: rest) a
                    <-> (start <= a < end_) \/ in_live rest a).
    { unfold in_live; simpl. split.
      - intros (r & [<-|Hr] & Ha); [now left | right; eauto].
      - intros [Ha|(r & Hr & Ha)]; eauto. }
    rewrite Hlive.
    destruct (mod_end <? start) eqn:Eb.
    + rewrite Hd1. apply Z.ltb_lt in Eb. split; [|tauto].
      intros [Hf Hn]. split; [exact Hf|]. intros [Ha|(r & Hr & Ha)]; [tauto|].
      rewrite Forall_forall in Hall. specialize (Hall r Hr).
      specialize (Hend a (Hsub a Hf)). unfold in_range in Ha. simpl in Hall. lia.
    + rewrite IH; [rewrite Hd1; tauto | exact HSr | | exact Hend].
      intros b Hb. apply Hd1 in Hb as [Hb _]. now apply Hsub.
Qed.

Lemma module_holes_contains mem_list m a :
  StronglySorted (fun x y : Z * Z => fst x <= fst y) mem_list ->
  (I.contains (module_holes mem_list m) a
   <-> in_module m a /\ ~ in_live mem_list a).
Proof.
  intros HS. destruct m as [[path mod_start] sz]. unfold module_holes, in_module.
  simpl fst; simpl snd.
  set (mod_ := I.closedopen mod_start (mod_start + sz)).
  assert (Hd0 : forall b, I.labelled (I.setitem [] mod_ "fill") "fill" b
                          <-> mod_start <= b < mod_start + sz).
  { intros b. rewrite setitem_same. unfold mod_. rewrite closedopen_contains.
    split; [intros [(kv & [] & _)|H]; exact H | now right]. }
  rewrite find_contains, available_fill; [now rewrite Hd0 | exact HS | |].
  - intros b Hb. apply closedopen_contains. now apply Hd0.
  - intros b Hb. apply closedopen_contains in Hb. lia.
Qed.

Lemma find_filling_canonical module_list mem_list :
  I.canonical (find_filling module_list mem_list).
Proof.
  unfold find_filling.
  assert (H0 : I.canonical I.empty) by (split; constructor).
  revert H0. generalize I.empty.
  induction module_list as [|m t IH]; intros acc Hacc; simpl; [exact Hacc|].
  apply IH. apply mk_canonical.
Qed.

(** [filling] is what the modules claim minus what is live. *)
Lemma find_filling_contains module_list mem_list a :
  StronglySorted (fun x y : Z * Z => fst x <= fst y) mem_list ->
  (I.contains (find_filling module_list mem_list) a
   <-> in_modules module_list a /\ ~ in_live mem_list a).
Proof.
  intros HS. unfold find_filling.
  assert (G : forall acc,
    I.contains (fold_left (fun filling m =>
                  I.union filling (module_holes mem_list m)) module_list acc) a
    <-> I.contains acc a \/ (in_modules module_list a /\ ~ in_live mem_list a)).
  { induction module_list as [|m t IH]; intros acc; simpl.
    - split; [now left | intros [H|[(m & [] & _) _]]; exact H].
    - rewrite IH, union_contains, (module_holes_contains _ _ _ HS).
      unfold in_modules; simpl. split.
      + intros [[H|[H1 H2]]|[(m' & Hm' & Ha) H2]]; eauto 6.
      + intros [H|[(m' & [<-|Hm'] & Ha) H2]]; eauto 7. }
  rewrite G. split; [intros [H|H]; [now apply contains_nil in H | exact H]|].
  now right.
Qed.

Lemma in_modules_sorted module_list a :
  in_modules (Py.sorted module_leb module_list) a <-> in_modules module_list a.
Proof.
  unfold in_modules. split; intros (m & Hm & Ha); exists m;
    (split; [apply sorted_In in Hm || apply sorted_In; exact Hm | exact Ha]).
Qed.

(* ================================================================== *)
(** ** [read_memory_fast]: the operation sequence *)

Lemma op_leb_total x y : op_leb x y = true \/ op_leb y x = true.
Proof.
  destruct x as [[s1 e1] k1], y as [[s2 e2] k2]. unfold op_leb.
  destruct (String.leb_total k1 k2) as [H|H]; rewrite H; lia.
Qed.

Lemma op_leb_start x y : op_leb x y = true -> op_start x <= op_start y.
Proof.
  destruct x as [[s1 e1] k1], y as [[s2 e2] k2]. unfold op_leb, op_start.
  simpl. lia.
Qed.

Lemma sorted_by_start ops :
  StronglySorted (fun x y => op_start x <= op_start y) (Py.sorted op_leb ops).
Proof.
  apply Sorted_StronglySorted; [intros x y z; lia|].
  eapply Sorted_ind
    with (P := fun l => Sorted (fun x y => op_start x <= op_start y) l);
    [constructor | | apply (sorted_Sorted _ op_leb_total)].
  intros a l' _ IH Hd. constructor; [exact IH|].
  destruct Hd as [|b l'' Hb]; constructor. now apply op_leb_start.
Qed.

Lemma in_live_dec ranges a : in_live ranges a \/ ~ in_live ranges a.
Proof.
  induction ranges as [|[s e] t IH].
  - right. now intros (r & [] & _).
  - destruct IH as [(r & Hr & Ha)|IH]; [left; exists r; simpl; auto|].
    destruct (Z_le_dec s a) as [H1|H1], (Z_lt_dec a e) as [H2|H2];
      try (right; intros (r & [<-|Hr] & Ha);
           [unfold in_range in Ha; simpl in Ha; lia | apply IH; exists r; auto]).
    left. exists (s, e). split; [now left | split; assumption].
Qed.

Lemma operations_In module_list mem_list o :
  In o (operations module_list mem_list)
  <-> (exists x, In x (find_filling module_list mem_list) /\ o = pad_op x)
      \/ (exists r, In r mem_list /\ o = mem_op r).
Proof.
  unfold operations. rewrite in_app_iff, !in_map_iff.
  split; (intros [(x & H1 & H2)|(x & H1 & H2)]; [left | right]; exists x; auto).
Qed.

Lemma operations_covered module_list mem_list a :
  covered (operations module_list mem_list) a
  <-> I.contains (find_filling module_list mem_list) a \/ in_live mem_list a.
Proof.
  unfold covered. split.
  - intros (o & Ho & Ha). apply operations_In in Ho as [(x & Hx & ->)|(r & Hr & ->)].
    + left. exists x. auto.
    + right. exists r. auto.
  - intros [(x & Hx & Ha)|(r & Hr & Ha)].
    + exists (pad_op x). split; [|exact Ha]. apply operations_In. eauto.
    + exists (mem_op r). split; [|exact Ha]. apply operations_In. eauto.
Qed.

Lemma StronglySorted_pairs {A} (R R' : A -> A -> Prop) l :
  (forall x y, R x y -> R' x y) -> StronglySorted R l -> ForallOrdPairs R' l.
Proof.
  intros Himp. induction 1 as [|x l _ IH Hall]; constructor; [|exact IH].
  revert Hall. apply Forall_impl. exact (Himp x).
Qed.

Lemma op_disjoint_sym x y : op_disjoint x y -> op_disjoint y x.
Proof. unfold op_disjoint. intros H a [H1 H2]. apply (H a). auto. Qed.

Lemma range_disjoint_sym x y : range_disjoint x y -> range_disjoint y x.
Proof. unfold range_disjoint. intros H a [H1 H2]. apply (H a). auto. Qed.

Lemma operations_disjoint module_list mem_list :
  StronglySorted (fun x y : Z * Z => fst x <= fst y) mem_list ->
  ForallOrdPairs range_disjoint mem_list ->
  ForallOrdPairs op_disjoint (operations module_list mem_list).
Proof.
  intros HS HL. unfold operations. apply ForallOrdPairs_app.
  - apply ForallOrdPairs_map.
    eapply StronglySorted_pairs;
      [|apply canonical_strongly, find_filling_canonical].
    intros x y [Hsep _] a [Ha1 Ha2].
    unfold covers, pad_op, op_start, op_end in *. iv_unfold. lia.
  - apply ForallOrdPairs_map. exact HL.
  - intros o1 o2 H1 H2 a [Ha1 Ha2].
    apply in_map_iff in H1 as (x & <- & Hx).
    apply in_map_iff in H2 as (r & <- & Hr).
    assert (Hf : I.contains (find_filling module_list mem_list) a)
      by (exists x; auto).
    apply (find_filling_contains _ _ _ HS) in Hf as [_ Hn].
    apply Hn. exists r. auto.
Qed.

(** The pieces of [filling] are emitted as ['pad'], the live ranges as
    ['mem'], and nothing else is emitted. *)
Lemma reconcile_In module_list ranges o :
  In o (reconcile module_list ranges)
  <-> (exists x,
         In x (find_filling (Py.sorted module_leb module_list)
                            (Py.sorted Py.pair_leb ranges))
         /\ o = pad_op x)
      \/ (exists r, In r ranges /\ o = mem_op r).
Proof.
  unfold reconcile. rewrite sorted_In, operations_In.
  split; (intros [H|(r & Hr & E)]; [now left | right; exists r]);
    (split; [apply sorted_In in Hr || apply sorted_In; exact Hr | exact E]).
Qed.

(** What the sequence covers, for any module list and any live ranges. *)
Lemma reconcile_covered module_list ranges a :
  covered (reconcile module_list ranges) a
  <-> in_modules module_list a \/ in_live ranges a.
Proof.
  unfold reconcile.
  assert (E : covered (Py.sorted op_leb
                (operations (Py.sorted module_leb module_list)
                            (Py.sorted Py.pair_leb ranges))) a
              <-> covered (operations (Py.sorted module_leb module_list)
                                      (Py.sorted Py.pair_leb ranges)) a).
  { unfold covered. split; intros (o & Ho & Ha); exists o;
      (split; [apply sorted_In in Ho || apply sorted_In; exact Ho | exact Ha]). }
  rewrite E, operations_covered.
  rewrite (find_filling_contains _ _ _ (mem_list_sorted ranges)).
  rewrite in_modules_sorted, in_live_sorted.
  destruct (in_live_dec ranges a); tauto.
Qed.

(** Pad operations never meet a live range. *)
Lemma reconcile_pad_outside_live module_list ranges o a :
  In o (reconcile module_list ranges) -> op_kind o = "pad"%string ->
  covers o a -> in_modules module_list a /\ ~ in_live ranges a.
Proof.
  intros Ho Hk Ha. apply reconcile_In in Ho as [(x & Hx & ->)|(r & _ & ->)];
    [|discriminate].
  assert (Hf : I.contains (find_filling (Py.sorted module_leb module_list)
                                        (Py.sorted Py.pair_leb ranges)) a)
    by (exists x; auto).
  apply (find_filling_contains _ _ _ (mem_list_sorted ranges)) in Hf.
  now rewrite in_modules_sorted, in_live_sorted in Hf.
Qed.

Example reconcile_partly_mapped :
  reconcile [("b.dll", 40, 10); ("a.dll", 0, 20)]%string [(30, 45); (5, 10)]
  = [(0, 5, "pad"); (5, 10, "mem"); (10, 20, "pad"); (30, 45, "mem");
     (45, 50, "pad")]%string.
Proof. reflexivity. Qed.

Example reconcile_adjacent_modules :
  reconcile [("a.dll", 0, 10); ("b.dll", 10, 10)]%string [(20, 30)]
  = [(0, 20, "pad"); (20, 30, "mem")]%string.
Proof. reflexivity. Qed.

(** C1 (as the code has it): for every module list and every list of
    pairwise disjoint live ranges, the operation sequence of
    [read_memory_fast] tiles the union of the module ranges and the live
    ranges: no two operations overlap, the addresses they cover are
    exactly that union (so there is no gap inside it), and the sequence
    is ordered by start address. *)
Theorem reconcile_tiles module_list ranges :
  ForallOrdPairs range_disjoint ranges ->
  tiles module_list ranges (reconcile module_list ranges).
Proof.
  intros HL. unfold tiles. split; [|split].
  - unfold reconcile.
    eapply ForallOrdPairs_perm;
      [exact op_disjoint_sym | symmetry; apply sorted_perm |].
    apply operations_disjoint; [apply mem_list_sorted|].
    eapply ForallOrdPairs_perm;
      [exact range_disjoint_sym | symmetry; apply sorted_perm | exact HL].
  - intros a. apply reconcile_covered.
  - apply sorted_by_start.
Qed.

Lemma reconcile_tiles_witness :
  ForallOrdPairs range_disjoint [(30, 45); (5, 10)]
  /\ tiles [("b.dll", 40, 10); ("a.dll", 0, 20)]%string [(30, 45); (5, 10)]
       (reconcile [("b.dll", 40, 10); ("a.dll", 0, 20)]%string
                  [(30, 45); (5, 10)]).
Proof.
  assert (H : ForallOrdPairs range_disjoint [(30, 45); (5, 10)]).
  { repeat constructor. intros a. unfold in_range. simpl. lia. }
  split; [exact H | exact (reconcile_tiles _ _ H)].
Defined.

(** C1 as stated fails: two live ranges that overlap each other are both
    emitted, so the operations overlap. *)
Lemma reconcile_overlapping_live_ranges :
  ~ tiles [("m.dll", 20, 5)]%string [(0, 10); (5, 15)]
      (reconcile [("m.dll", 20, 5)]%string [(0, 10); (5, 15)]).
Proof.
  intros [H _].
  change (reconcile [("m.dll", 20, 5)]%string [(0, 10); (5, 15)])
    with [(0, 10, "mem"); (5, 15, "mem"); (20, 25, "pad")]%string in H.
  inversion H as [|? ? Hall _]; subst.
  inversion Hall as [|? ? Hd _]; subst.
  apply (Hd 7). unfold covers, op_start, op_end. simpl. lia.
Qed.

(** C2: over the span of a module the pad operations cover exactly the
    addresses no live range covers (interval subtraction); every live
    range is emitted as a mem operation; a module that lies inside a
    live range has only mem operations over its span, never a pad; and
    the whole span of a (non-empty) module that meets no live range is
    one pad operation: a single operation lies over the span, it is a
    pad and it contains the span, and it is the span itself unless the
    hole of another module touches it (the interval package merges
    touching holes, see [reconcile_adjacent_modules]). *)
Theorem pads_are_module_minus_live module_list ranges m :
  In m module_list ->
  (forall a, in_module m a ->
     ((exists o, In o (reconcile module_list ranges)
                 /\ op_kind o = "pad"%string /\ covers o a)
      <-> ~ in_live ranges a))
  /\ (forall r, In r ranges ->
        In (fst r, snd r, "mem"%string) (reconcile module_list ranges))
  /\ (forall r, In r ranges -> (forall a, in_module m a -> in_range r a) ->
        forall o a, In o (reconcile module_list ranges) ->
                    in_module m a -> covers o a -> op_kind o = "mem"%string)
  /\ ((forall a, in_module m a -> ~ in_live ranges a) -> 0 < snd m ->
        exists o, In o (reconcile module_list ranges)
                  /\ op_kind o = "pad"%string
                  /\ op_start o <= snd (fst m)
                  /\ snd (fst m) + snd m <= op_end o
                  /\ (forall o' a, In o' (reconcile module_list ranges) ->
                                   in_module m a -> covers o' a -> o' = o)
                  /\ ((in_modules module_list (snd (fst m) - 1) ->
                       in_live ranges (snd (fst m) - 1)) ->
                      (in_modules module_list (snd (fst m) + snd m) ->
                       in_live ranges (snd (fst m) + snd m)) ->
                      o = (snd (fst m), snd (fst m) + snd m, "pad"%string))).
Proof.
  intros Hm.
  set (filling := find_filling (Py.sorted module_leb module_list)
                               (Py.sorted Py.pair_leb ranges)).
  assert (Hfill : forall a, I.contains filling a
                            <-> in_modules module_list a /\ ~ in_live ranges a).
  { intros a. unfold filling.
    rewrite (find_filling_contains _ _ _ (mem_list_sorted ranges)).
    now rewrite in_modules_sorted, in_live_sorted. }
  assert (Hkinds : forall o, In o (reconcile module_list ranges) ->
            (exists x, In x filling /\ o = pad_op x)
            \/ (exists r, In r ranges /\ o = mem_op r))
    by (intros o; apply reconcile_In).
  split; [|split; [|split]].
  - intros a Ha. split.
    + intros (o & Ho & Hk & Hc).
      now destruct (reconcile_pad_outside_live _ _ _ _ Ho Hk Hc).
    + intros Hn. destruct (proj2 (Hfill a)) as (x & Hx & Hax).
      { split; [exists m; auto | exact Hn]. }
      exists (pad_op x). split; [|split; [reflexivity | exact Hax]].
      apply reconcile_In. left. eauto.
  - intros r Hr. apply reconcile_In. right. exists r. auto.
  - intros r Hr Hin o a Ho Ha Hc.
    destruct (Hkinds o Ho) as [(x & Hx & ->)|(r' & _ & ->)]; [|reflexivity].
    exfalso. assert (Hf : I.contains filling a) by (exists x; auto).
    apply Hfill in Hf as [_ Hn]. apply Hn. exists r. auto.
  - intros Hfree Hpos.
    destruct (canonical_connected filling (snd (fst m)) (snd (fst m) + snd m))
      as (x & Hx & Hlo & Hhi).
    + apply find_filling_canonical.
    + lia.
    + intros a Ha. apply Hfill. split; [exists m; auto | now apply Hfree].
    + exists (pad_op x). split; [apply reconcile_In; left; eauto|].
      split; [reflexivity|]. split; [exact Hlo|]. split; [exact Hhi|].
      split.
      * intros o' a Ho' Ha Hc.
        destruct (Hkinds o' Ho') as [(x' & Hx' & ->)|(r' & Hr' & ->)].
        -- destruct (canonical_apart filling x x'
                       (find_filling_canonical _ _) Hx Hx') as [->|[H|H]];
             [reflexivity | exfalso | exfalso];
             unfold covers, pad_op, op_start, op_end, in_module in *;
             iv_unfold; lia.
        -- exfalso. apply (Hfree a Ha). exists r'. auto.
      * intros Hleft Hright.
        assert (Hl : ~ I.lower x < snd (fst m)).
        { intros Hl.
          assert (Hf : I.contains filling (snd (fst m) - 1))
            by (exists x; split; [exact Hx | iv_unfold; lia]).
          apply Hfill in Hf as [Hf Hn]. auto. }
        assert (Hu : ~ snd (fst m) + snd m < I.upper x).
        { intros Hu.
          assert (Hf : I.contains filling (snd (fst m) + snd m))
            by (exists x; split; [exact Hx | iv_unfold; lia]).
          apply Hfill in Hf as [Hf Hn]. auto. }
        unfold pad_op. f_equal. f_equal; lia.
Qed.

Lemma pads_are_module_minus_live_witness :
  In ("a.dll", 0, 20)%string [("b.dll", 40, 10); ("a.dll", 0, 20)]%string
  /\ (forall a, in_module ("a.dll", 0, 20)%string a ->
        ((exists o,
            In o (reconcile [("b.dll", 40, 10); ("a.dll", 0, 20)]%string
                            [(30, 45); (5, 10)])
            /\ op_kind o = "pad"%string /\ covers o a)
         <-> ~ in_live [(30, 45); (5, 10)] a)).
Proof.
  assert (H : In ("a.dll", 0, 20)%string
                 [("b.dll", 40, 10); ("a.dll", 0, 20)]%string)
    by (simpl; auto).
  split; [exact H|].
  exact (proj1 (pads_are_module_minus_live _ [(30, 45); (5, 10)] _ H)).
Defined.

(* ================================================================== *)
(** ** [read_memory_fast]: read and fill *)

Lemma read_fill_step_eq read acc o :
  read_fill_step read acc o
  = (fst acc ++ [region_of o], snd acc ++ [block_of read o]).
Proof.
  destruct acc as [mis blocks], o as [[start end_] op].
  unfold read_fill_step, region_of, block_of, op_start, op_end. simpl.
  now destruct (String.eqb op "fill").
Qed.

(** Both lists are built from the same operation sequence, record by
    record, and the read does not depend on the kind. *)
Lemma read_fill_eq read ops :
  read_fill read ops = (map region_of ops, map (block_of read) ops).
Proof.
  unfold read_fill.
  assert (G : forall acc,
            fold_left (read_fill_step read) ops acc
            = (fst acc ++ map region_of ops,
               snd acc ++ map (block_of read) ops)).
  { induction ops as [|o t IH]; intros acc; simpl.
    - rewrite !app_nil_r. now destruct acc.
    - rewrite IH, read_fill_step_eq. simpl. now rewrite <- !app_assoc. }
  now rewrite G.
Qed.

Lemma zeros_length n : 0 <= n -> Z.of_nat (List.length (zeros n)) = n.
Proof. intros H. unfold zeros. rewrite repeat_length. lia. Qed.

Lemma zeros_all_zero n b : In b (zeros n) -> b = x00.
Proof. unfold zeros. apply repeat_spec. Qed.

(** C4: when the lsass task is found, [read_memory_fast] returns (no
    failure leaves it) and its content blocks follow the operation
    sequence one to one; for every operation, whatever its kind, the
    block holds what the read of the full range [[start, start+size)]
    gave, and a buffer of [size] zero bytes when that read failed. *)
Theorem failed_reads_are_zero_filled s module_list task rest :
  pslist_lsass s = task :: rest ->
  exists infos blocks,
    read_memory_fast s module_list = Ok (infos, blocks)
    /\ blocks
       = map (fun o =>
                let start := op_start o in
                let size := op_end o - op_start o in
                (start, size,
                 match page_read (get_process_address_space task) start size with
                 | Some data => data
                 | None => zeros size
                 end))
             (reconcile module_list
                (get_address_ranges (get_process_address_space task)
                                    (highest_usermode_address s)))
    /\ (forall b, In b blocks ->
          page_read (get_process_address_space task)
                    (block_start b) (block_size b) = None ->
          block_data b = zeros (block_size b)
          /\ (0 <= block_size b ->
              Z.of_nat (List.length (block_data b)) = block_size b)).
Proof.
  intros Htask. unfold read_memory_fast. rewrite Htask, read_fill_eq.
  eexists _, _. split; [reflexivity|]. split; [reflexivity|].
  intros b Hb Hfail. apply in_map_iff in Hb as (o & <- & _).
  unfold block_of, block_start, block_size, block_data, addr_space_read in *.
  simpl in *. rewrite Hfail. split; [reflexivity | apply zeros_length].
Qed.

(** C8: the sizes of the content blocks add up to the region sizes of
    the memory-region records, for every module list and every session
    (hence every list of live ranges); without an lsass task nothing is
    produced. *)
Theorem block_sizes_match_region_sizes s module_list :
  match read_memory_fast s module_list with
  | Ok (memoryinfo_list, memory64_list) =>
      total (map block_size memory64_list)
      = total (map RegionSize memoryinfo_list)
      /\ map (fun b => (block_start b, block_size b)) memory64_list
         = map (fun mi => (BaseAddress mi, RegionSize mi)) memoryinfo_list
  | Raise e => e = StopIteration /\ pslist_lsass s = []
  end.
Proof.
  unfold read_memory_fast. destruct (pslist_lsass s) as [|task rest]; [auto|].
  rewrite read_fill_eq. rewrite !map_map. split; reflexivity.
Qed.

(** Every region record [read_memory_fast] builds has its allocation
    base, protections, state and type set to zero. *)
Lemma read_memory_fast_zero_metadata s module_list infos blocks :
  read_memory_fast s module_list = Ok (infos, blocks) ->
  Forall zero_metadata infos.
Proof.
  unfold read_memory_fast. destruct (pslist_lsass s) as [|task rest];
    [discriminate|].
  rewrite read_fill_eq. intros [= <- _].
  apply Forall_forall. intros mi Hmi. apply in_map_iff in Hmi as (o & <- & _).
  repeat split.
Qed.

(* ================================================================== *)
(** ** The secure-world scan *)

Lemma shiftl_page pfn : Z.shiftl pfn PAGE_BITS = pfn * 4096.
Proof. unfold PAGE_BITS. now rewrite Z.shiftl_mul_pow2 by lia. Qed.

Lemma find_secure_world_pages_eq s image_size :
  find_secure_world_pages s image_size
  = map (fun pfn => pfn * 4096)
        (filter (fun pfn => is_secure_world (MmPfnDatabase s pfn))
                (Py.range (image_size / 4096))).
Proof.
  unfold find_secure_world_pages.
  change (image_size / 0x1000) with (image_size / 4096).
  rewrite <- (map_ext _ _ shiftl_page).
  generalize (Py.range (image_size / 4096)) as pfns.
  assert (G : forall pfns acc,
    fold_left
      (fun secure_world_pages pfn =>
         if is_secure_world (MmPfnDatabase s pfn)
         then secure_world_pages ++ [Z.shiftl pfn PAGE_BITS]
         else secure_world_pages) pfns acc
    = acc ++ map (fun pfn => Z.shiftl pfn PAGE_BITS)
                 (filter (fun pfn => is_secure_world (MmPfnDatabase s pfn)) pfns)).
  { induction pfns as [|pfn t IH]; intros acc; cbn [fold_left filter].
    - cbn [map]. now rewrite app_nil_r.
    - rewrite IH. destruct (is_secure_world (MmPfnDatabase s pfn)).
      + cbn [map]. now rewrite <- app_assoc.
      + reflexivity. }
  intros pfns. apply (G pfns []).
Qed.

Lemma read_pages_ok read : forall pages datas acc,
  Forall2 (fun addr data => read addr PAGE_SIZE = Ok data) pages datas ->
  read_pages read pages acc = Ok (acc ++ datas).
Proof.
  induction pages as [|addr t IH]; intros datas acc H; inversion H; subst; simpl.
  - now rewrite app_nil_r.
  - rewrite H2, (IH _ _ H4), <- app_assoc. reflexivity.
Qed.

Lemma read_pages_raise read e addr post : forall pre acc,
  Forall (fun a => exists data, read a PAGE_SIZE = Ok data) pre ->
  read addr PAGE_SIZE = Raise e ->
  read_pages read (pre ++ addr :: post) acc = Raise e.
Proof.
  induction pre as [|a t IH]; intros acc Hpre Hfail; simpl.
  - now rewrite Hfail.
  - inversion Hpre as [|? ? [data Hd] Ht]; subst. rewrite Hd. now apply IH.
Qed.

(** C3: the scan goes through the page-frame numbers [0 <= pfn <
    image_size / 4096] in increasing order and yields [pfn * 4096] for
    exactly those whose record has ReferenceCount 2, ShareCount 1 and
    PteAddress 0; the blob is the concatenation, in that order, of one
    4096-byte read per address found; with no matching page both are
    empty. *)
Theorem secure_world_scan_and_blob s image_size datas :
  Forall2 (fun addr data => base_read s addr 4096 = Ok data)
          (find_secure_world_pages s image_size) datas ->
  find_secure_world_pages s image_size
  = map (fun pfn => pfn * 4096)
        (filter (fun pfn =>
                   (ReferenceCount (MmPfnDatabase s pfn) =? 2)
                   && (ShareCount (MmPfnDatabase s pfn) =? 1)
                   && (PteAddress (MmPfnDatabase s pfn) =? 0))
                (Py.range (image_size / 4096)))
  /\ (forall pfn, In pfn (Py.range (image_size / 4096))
                  <-> 0 <= pfn < image_size / 4096)
  /\ read_secure_world s (find_secure_world_pages s image_size)
     = Ok (List.concat datas)
  /\ (find_secure_world_pages s image_size = [] ->
      read_secure_world s (find_secure_world_pages s image_size) = Ok []).
Proof.
  intros Hread. split; [apply find_secure_world_pages_eq|].
  split; [intros pfn; apply range_In|].
  unfold read_secure_world. split.
  - now rewrite (read_pages_ok _ _ _ [] Hread).
  - intros E. now rewrite E.
Qed.

(* ================================================================== *)
(** ** Sequencing *)

Lemma bind_cases {A B} (c : M A) (k : A -> M B) st :
  (exists a st1, c st = (Return a, st1) /\ bind c k st = k a st1)
  \/ (exists e st1, c st = (Raised e, st1) /\ bind c k st = (Raised e, st1))
  \/ (exists n st1, c st = (SysExit n, st1) /\ bind c k st = (SysExit n, st1)).
Proof.
  unfold bind. destruct (c st) as [[a|e|n] st1]; eauto 8.
Qed.

Lemma bind_Return {A B} (c : M A) (k : A -> M B) st a st1 :
  c st = (Return a, st1) -> bind c k st = k a st1.
Proof. unfold bind. now intros ->. Qed.

Lemma bind_Raised {A B} (c : M A) (k : A -> M B) st e st1 :
  c st = (Raised e, st1) -> bind c k st = (Raised e, st1).
Proof. unfold bind. now intros ->. Qed.

Lemma bind_SysExit {A B} (c : M A) (k : A -> M B) st n st1 :
  c st = (SysExit n, st1) -> bind c k st = (SysExit n, st1).
Proof. unfold bind. now intros ->. Qed.

Lemma no_exit_bind {A B} (c : M A) (k : A -> M B) :
  no_exit c -> (forall a, no_exit (k a)) -> no_exit (bind c k).
Proof.
  intros Hc Hk st code st' H.
  destruct (bind_cases c k st)
    as [(a & st1 & E & Eb)|[(e & st1 & E & Eb)|(n & st1 & E & Eb)]];
    rewrite Eb in H.
  - exact (Hk a _ _ _ H).
  - discriminate.
  - exact (Hc _ _ _ E).
Qed.

Lemma no_exit_ret {A} (a : A) : no_exit (ret a).
Proof. intros st code st'. discriminate. Qed.

Lemma no_exit_raise {A} e : no_exit (@raise A e).
Proof. intros st code st'. discriminate. Qed.

Lemma no_exit_call {A} (r : result A) : no_exit (call r).
Proof. destruct r; [apply no_exit_ret | apply no_exit_raise]. Qed.

Lemma no_exit_exists w p : no_exit (os_path_exists w p).
Proof. intros st code st'. discriminate. Qed.

Lemma no_exit_sleep n : no_exit (time_sleep n).
Proof. intros st code st'. discriminate. Qed.

Lemma no_exit_mkdir w p : no_exit (os_mkdir w p).
Proof.
  apply no_exit_bind; [apply no_exit_exists|].
  intros [|]; [apply no_exit_raise | intros st code st'; discriminate].
Qed.

Lemma no_exit_write w p data : no_exit (write_file w p data).
Proof.
  apply no_exit_bind.
  - destruct (String.eqb (Py.dirname p) ""); [apply no_exit_ret | apply no_exit_exists].
  - intros [|]; [intros st code st'; discriminate | apply no_exit_raise].
Qed.

Lemma no_exit_poll w path n : no_exit (poll w path n).
Proof.
  induction n as [|n IH]; simpl; [apply no_exit_raise|].
  apply no_exit_bind; [apply no_exit_exists|].
  intros [|]; [apply no_exit_ret|].
  apply no_exit_bind; [apply no_exit_sleep | intros _; exact IH].
Qed.

Lemma no_exit_cg w s path label : no_exit (_cg w s path label).
Proof.
  apply no_exit_bind; [apply no_exit_call|]. intros sw.
  apply no_exit_bind; [intros st code st'; discriminate|]. intros fp.
  apply no_exit_bind; [apply no_exit_write | intros _; apply no_exit_ret].
Qed.

Lemma no_exit_gather w label vmem config s lsass_pid :
  no_exit (gather w label vmem config s lsass_pid).
Proof.
  apply no_exit_bind.
  - unfold credential_guard.
    destruct (List.find _ (pslist s)); [|apply no_exit_ret].
    destruct vmem as [[|c r]|]; try apply no_exit_ret.
    apply no_exit_bind; [apply no_exit_cg | intros sw; apply no_exit_ret].
  - intros md. apply no_exit_bind.
    + unfold get_build. destruct (build config); [apply no_exit_ret|].
      destruct (List.find _ (imageinfo s)); [apply no_exit_call | apply no_exit_ret].
    + intros b. apply no_exit_bind; [apply no_exit_call|].
      intros [mis blocks]. apply no_exit_ret.
Qed.

Lemma no_exit_persist w label data : no_exit (persist w label data).
Proof.
  apply no_exit_bind; [apply no_exit_exists|]. intros e.
  apply no_exit_bind.
  - destruct (negb e); [apply no_exit_mkdir | apply no_exit_ret].
  - intros _. apply no_exit_bind; [intros st code st'; discriminate|].
    intros fp. apply no_exit_write.
Qed.

(* ================================================================== *)
(** ** [ensureFileExist] *)

Lemma slept_0 st : slept 0 st = st.
Proof. destruct st as [c d f]. unfold slept. simpl. f_equal. lia. Qed.

Lemma slept_slept j k st : slept j (slept k st) = slept (k + j) st.
Proof. unfold slept. simpl. f_equal. lia. Qed.

Lemma poll_step w path n st :
  poll w path (S n) st
  = if exists_now w path st then (Return tt, st)
    else poll w path n (slept 1 st).
Proof.
  simpl. unfold bind, os_path_exists, time_sleep. fold (exists_now w path st).
  now destruct (exists_now w path st).
Qed.

(** Either every one of the [n] checks fails, and the [else] branch
    raises after [n] sleeps of one second, or the first successful
    check, after [k < n] sleeps, ends the wait. *)
Lemma poll_outcome w path : forall n st,
  ((forall k, (k < n)%nat -> exists_now w path (slept k st) = false)
   /\ poll w path n st
      = (Raised (Exception ("File does not exist: " ++ path)), slept n st))
  \/ (exists k, (k < n)%nat
        /\ exists_now w path (slept k st) = true
        /\ (forall j, (j < k)%nat -> exists_now w path (slept j st) = false)
        /\ poll w path n st = (Return tt, slept k st)).
Proof.
  induction n as [|n IH]; intros st.
  - left. split; [intros k Hk; lia|]. simpl. now rewrite slept_0.
  - rewrite poll_step. destruct (exists_now w path st) eqn:E.
    + right. exists O. rewrite slept_0. repeat split; [lia | exact E | lia].
    + destruct (IH (slept 1 st)) as [[Hall Hp]|(k & Hk & Hex & Hbefore & Hp)].
      * left. rewrite slept_slept in Hp. split; [|exact Hp].
        intros [|k] Hk; [now rewrite slept_0|].
        specialize (Hall k ltac:(lia)). now rewrite slept_slept in Hall.
      * right. exists (S k). rewrite slept_slept in Hex, Hp.
        repeat split; [lia | exact Hex | | exact Hp].
        intros [|j] Hj; [now rewrite slept_0|].
        specialize (Hbefore j ltac:(lia)). now rewrite slept_slept in Hbefore.
Qed.

(** C7: [ensureFileExist] checks for the file at most 120 times, one
    second apart.  It returns at the first check that finds the file;
    it raises [Exception('File does not exist: ' + path)] exactly when
    none of the 120 checks finds it. *)
Theorem ensureFileExist_polls w path st :
  (((forall k, (k < 120)%nat -> exists_now w path (slept k st) = false)
    /\ ensureFileExist w path st
       = (Raised (Exception ("File does not exist: " ++ path)), slept 120 st))
   \/ (exists k, (k < 120)%nat
         /\ exists_now w path (slept k st) = true
         /\ (forall j, (j < k)%nat -> exists_now w path (slept j st) = false)
         /\ ensureFileExist w path st = (Return tt, slept k st)))
  /\ ((exists e, fst (ensureFileExist w path st) = Raised e)
      <-> (forall k, (k < 120)%nat -> exists_now w path (slept k st) = false)).
Proof.
  unfold ensureFileExist. split; [apply poll_outcome|].
  destruct (poll_outcome w path 120 st)
    as [[Hall Hp]|(k & Hk & Hex & Hbefore & Hp)]; rewrite Hp; simpl.
  - split; [intros _; exact Hall | eauto].
  - split; [intros [e He]; discriminate|].
    intros Hall. rewrite (Hall k Hk) in Hex. discriminate.
Qed.

Lemma no_exit_ensureFileExist w path : no_exit (ensureFileExist w path).
Proof. apply no_exit_poll. Qed.

(** The wait only lets time pass. *)
Lemma ensureFileExist_slept w path st :
  exists k, snd (ensureFileExist w path st) = slept k st.
Proof.
  unfold ensureFileExist.
  destruct (poll_outcome w path 120 st) as [[_ Hp]|(k & _ & _ & _ & Hp)];
    rewrite Hp; cbn [snd]; eauto.
Qed.

(** The wait does not look at the rows of [vaddump]. *)
Lemma ensureFileExist_with_vaddump f w path st :
  ensureFileExist (with_vaddump f w) path st = ensureFileExist w path st.
Proof.
  unfold ensureFileExist. generalize 120%nat as n. intros n. revert st.
  induction n as [|n IH]; intros st; [reflexivity|].
  rewrite !poll_step. change (exists_now (with_vaddump f w)) with (exists_now w).
  destruct (exists_now w path st); [reflexivity | apply IH].
Qed.

Opaque ensureFileExist.

(* ================================================================== *)
(** ** [_dump] and [dump]: how a run ends *)

Lemma no_exit_config_file w :
  no_exit (ensureFileExist w "config.json" ;;; call (load_config w)).
Proof.
  apply no_exit_bind; [apply no_exit_ensureFileExist|].
  intros _. apply no_exit_call.
Qed.

(** [get_config] calls [sys.exit] for a bad extension only, with code 1
    and before anything else happens. *)
Lemma get_config_exit w vmem st code st' :
  get_config w vmem st = (SysExit code, st') ->
  code = 1 /\ st' = st /\ bad_extension vmem.
Proof.
  unfold get_config, bad_extension.
  destruct vmem as [[|c r]|].
  - intros H. exfalso. exact (no_exit_config_file w _ _ _ H).
  - destruct (Py.splitext (String c r)) as [image_base image_ext] eqn:E.
    destruct (String.eqb_spec image_ext ".vmem") as [Eq|Ne]; cbn [negb].
    + discriminate.
    + intros [= <- <-]. repeat split.
      exists (String c r). rewrite E. repeat split; [discriminate | exact Ne].
  - intros H. exfalso. exact (no_exit_config_file w _ _ _ H).
Qed.

Lemma bad_extension_get_config w vmem st :
  bad_extension vmem -> get_config w vmem st = (SysExit 1, st).
Proof.
  intros (path & -> & Hne & Hext). unfold get_config.
  destruct path as [|c r]; [congruence|].
  destruct (Py.splitext (String c r)) as [image_base image_ext].
  cbn [snd] in Hext. apply String.eqb_neq in Hext. now rewrite Hext.
Qed.

Lemma acquire_session_eq w vmem :
  acquire_session w vmem = bind (get_config w vmem) (open_image w).
Proof. reflexivity. Qed.

Lemma no_exit_open_image w config : no_exit (open_image w config).
Proof.
  apply no_exit_bind.
  - destruct (image config); [apply no_exit_ret | apply no_exit_raise].
  - intros p. apply no_exit_bind; [apply no_exit_ensureFileExist|]. intros _.
    apply no_exit_bind; [apply no_exit_call | intros s; apply no_exit_ret].
Qed.

Lemma acquire_session_exit w vmem st code st' :
  acquire_session w vmem st = (SysExit code, st') ->
  code = 1 /\ st' = st /\ bad_extension vmem.
Proof.
  rewrite acquire_session_eq. intros H.
  destruct (bind_cases (get_config w vmem) (open_image w) st)
    as [(config & st1 & E & Eb)|[(e & st1 & E & Eb)|(n & st1 & E & Eb)]];
    rewrite Eb in H.
  - exfalso. exact (no_exit_open_image w config _ _ _ H).
  - discriminate.
  - injection H as -> ->. now apply get_config_exit in E.
Qed.

Lemma find_lsass_cases s st :
  (exists row,
      List.find (is_process "lsass.exe") (pslist_PsActiveProcessHead s) = Some row
      /\ find_lsass s st = (Return (pid row), st))
  \/ (List.find (is_process "lsass.exe") (pslist_PsActiveProcessHead s) = None
      /\ find_lsass s st = (SysExit 1, st)).
Proof.
  unfold find_lsass.
  destruct (List.find _ (pslist_PsActiveProcessHead s)) as [row|]; eauto.
Qed.

Lemma _dump_eq w label vmem :
  _dump w label vmem
  = bind (assemble w label vmem) (build_and_persist w label).
Proof. reflexivity. Qed.

Lemma assemble_eq w label vmem :
  assemble w label vmem
  = bind (acquire_session w vmem) (locate_and_gather w label vmem).
Proof. reflexivity. Qed.

Lemma no_exit_build_and_persist w label md :
  no_exit (build_and_persist w label md).
Proof.
  apply no_exit_bind; [apply no_exit_call | intros d; apply no_exit_persist].
Qed.

Lemma locate_and_gather_exit w label vmem cs st code st' :
  locate_and_gather w label vmem cs st = (SysExit code, st') ->
  code = 1
  /\ List.find (is_process "lsass.exe") (pslist_PsActiveProcessHead (snd cs))
     = None.
Proof.
  unfold locate_and_gather. intros H.
  destruct (find_lsass_cases (snd cs) st) as [(row & Hf & Hr)|[Hf Hr]].
  - exfalso. rewrite (bind_Return _ _ _ _ _ Hr) in H.
    exact (no_exit_gather _ _ _ _ _ _ _ _ _ H).
  - rewrite (bind_SysExit _ _ _ _ _ Hr) in H. injection H as <- <-. auto.
Qed.

(** [_dump] ends in [sys.exit] only with code 1, and only for a bad
    extension or an enumeration without lsass.exe. *)
Lemma _dump_exit w label vmem st code st' :
  _dump w label vmem st = (SysExit code, st') ->
  code = 1 /\ (bad_extension vmem \/ lsass_not_found w vmem st).
Proof.
  rewrite _dump_eq. intros H.
  destruct (bind_cases (assemble w label vmem) (build_and_persist w label) st)
    as [(md & st1 & E & Eb)|[(e & st1 & E & Eb)|(n & st1 & E & Eb)]];
    rewrite Eb in H.
  - exfalso. exact (no_exit_build_and_persist _ _ _ _ _ _ H).
  - discriminate.
  - injection H as -> ->. clear Eb. rewrite assemble_eq in E.
    destruct (bind_cases (acquire_session w vmem)
                (locate_and_gather w label vmem) st)
      as [(cs & st2 & E2 & Eb)|[(e & st2 & E2 & Eb)|(n & st2 & E2 & Eb)]];
      rewrite Eb in E.
    + apply locate_and_gather_exit in E as [-> Hf].
      split; [reflexivity|]. right. destruct cs as [config s].
      exists config, s, st2. auto.
    + discriminate.
    + injection E as -> ->. apply acquire_session_exit in E2 as (-> & _ & Hb).
      auto.
Qed.

Lemma bad_extension_exits w label vmem st :
  bad_extension vmem -> _dump w label vmem st = (SysExit 1, st).
Proof.
  intros Hb. rewrite _dump_eq. apply bind_SysExit.
  rewrite assemble_eq. apply bind_SysExit.
  rewrite acquire_session_eq. apply bind_SysExit.
  now apply bad_extension_get_config.
Qed.

Lemma lsass_not_found_exits w label vmem st :
  lsass_not_found w vmem st -> fst (_dump w label vmem st) = SysExit 1.
Proof.
  intros (config & s & st' & Ha & Hf). rewrite _dump_eq, assemble_eq.
  destruct (find_lsass_cases s st') as [(row & Hf' & _)|[_ Hr]]; [congruence|].
  rewrite (bind_SysExit _ _ st 1 st'); [reflexivity|].
  rewrite (bind_Return _ _ _ _ _ Ha). unfold locate_and_gather.
  apply bind_SysExit. exact Hr.
Qed.

Lemma exn_interrupt_dec (e : exn) :
  e = KeyboardInterrupt \/ e <> KeyboardInterrupt.
Proof. destruct e; (now left) || (right; discriminate). Qed.

Lemma dump_cases w label vmem st :
  (exists st', _dump w label vmem st = (Return tt, st')
               /\ dump w label vmem st = (Return tt, st'))
  \/ (exists st', _dump w label vmem st = (Raised KeyboardInterrupt, st')
                  /\ dump w label vmem st = (Return tt, st'))
  \/ (exists e st', e <> KeyboardInterrupt
                    /\ _dump w label vmem st = (Raised e, st')
                    /\ dump w label vmem st = (Raised e, st'))
  \/ (exists code st', _dump w label vmem st = (SysExit code, st')
                       /\ dump w label vmem st = (SysExit code, st')).
Proof.
  unfold dump. destruct (_dump w label vmem st) as [[[]|e|code] st'].
  - left. eauto.
  - destruct e;
      try (right; right; left;
           refine (ex_intro _ _ (ex_intro _ _ (conj _ (conj eq_refl eq_refl))));
           discriminate).
    right; left. eauto.
  - right; right; right. eauto.
Qed.

(** C6 (as the code has it): the exit status is non-zero exactly when
    the local image path lacks the [.vmem] extension, or lsass.exe is
    missing from the enumeration, or an exception other than an
    interruption leaves [_dump] (it is not caught by [dump]); a bad
    extension ends the run with status 1 before anything is awaited or
    opened, and an interruption ends it with status 0. *)
Theorem dump_exit_status w label vmem st :
  (exit_status (fst (dump w label vmem st)) <> 0
   <-> bad_extension vmem
       \/ lsass_not_found w vmem st
       \/ exists e, e <> KeyboardInterrupt
                    /\ fst (_dump w label vmem st) = Raised e)
  /\ (bad_extension vmem -> dump w label vmem st = (SysExit 1, st))
  /\ (fst (_dump w label vmem st) = Raised KeyboardInterrupt ->
      exit_status (fst (dump w label vmem st)) = 0)
  /\ (forall code, fst (dump w label vmem st) = SysExit code -> code = 1).
Proof.
  assert (Hexit := _dump_exit w label vmem st).
  assert (Hbad := bad_extension_exits w label vmem st).
  assert (Hlsass := lsass_not_found_exits w label vmem st).
  destruct (dump_cases w label vmem st)
    as [(st' & E & Ed)|[(st' & E & Ed)|[(e & st' & Hn & E & Ed)
                                        |(code & st' & E & Ed)]]];
    rewrite Ed; rewrite E in *; cbn [fst exit_status].
  - split; [|split; [|split]].
    + split; [intros H; now contradiction H|].
      intros [H|[H|(e & _ & H)]];
        [specialize (Hbad H) | specialize (Hlsass H) |]; discriminate.
    + intros H. specialize (Hbad H). discriminate.
    + discriminate.
    + discriminate.
  - split; [|split; [|split]].
    + split; [intros H; now contradiction H|].
      intros [H|[H|(e & Hn & H)]];
        [specialize (Hbad H); discriminate
        | specialize (Hlsass H); discriminate |].
      injection H as <-. now contradiction Hn.
    + intros H. specialize (Hbad H). discriminate.
    + reflexivity.
    + discriminate.
  - split; [|split; [|split]].
    + split; [intros _; right; right; eauto | lia].
    + intros H. specialize (Hbad H). discriminate.
    + intros [= ->]. now contradiction Hn.
    + discriminate.
  - destruct (Hexit code st' eq_refl) as [-> Hwhy].
    split; [|split; [|split]].
    + split; [intros _; destruct Hwhy; auto | lia].
    + intros H. specialize (Hbad H). congruence.
    + discriminate.
    + now intros c [= <-].
Qed.

(** C6 as stated fails: when the image never shows up, the wait raises,
    nothing catches the exception, and the run does not end with
    status 0 although the extension is right and no enumeration lacked
    lsass.exe. *)
Lemma missing_image_is_not_status_zero :
  ~ exits_nonzero_only_for_preconditions
      absent_world "lab" (Some "lsass.vmem"%string) boot.
Proof.
  unfold exits_nonzero_only_for_preconditions. intros [H _].
  assert (Hrun : dump absent_world "lab" (Some "lsass.vmem"%string) boot
                 = (Raised (Exception "File does not exist: lsass.vmem"),
                    slept 120 boot))
    by (vm_compute; reflexivity).
  rewrite Hrun in H. cbn [fst exit_status] in H.
  destruct (H ltac:(lia)) as [Hb|Hl].
  - destruct Hb as (path & [= <-] & _ & Hext). apply Hext.
    vm_compute. reflexivity.
  - destruct Hl as (config & s & st' & Ha & _).
    assert (Hacq : fst (acquire_session absent_world
                          (Some "lsass.vmem"%string) boot)
                   = Raised (Exception "File does not exist: lsass.vmem"))
      by (vm_compute; reflexivity).
    rewrite Ha in Hacq. discriminate.
Qed.

(* ================================================================== *)
(** ** Secure-world extraction inside a run *)

Lemma same_files_refl st : same_files st st.
Proof. split; reflexivity. Qed.

Lemma same_files_trans st1 st2 st3 :
  same_files st1 st2 -> same_files st2 st3 -> same_files st1 st3.
Proof. unfold same_files. intros [H1 H2] [H3 H4]. split; congruence. Qed.

Lemma same_files_slept k st : same_files st (slept k st).
Proof. split; reflexivity. Qed.

Lemma ensureFileExist_same_files w path st :
  same_files st (snd (ensureFileExist w path st)).
Proof.
  destruct (ensureFileExist_slept w path st) as [k ->]. apply same_files_slept.
Qed.

Lemma call_inv {A} (r : result A) st o st' :
  call r st = (o, st') ->
  st' = st /\ ((exists a, r = Ok a /\ o = Return a)
               \/ (exists e, r = Raise e /\ o = Raised e)).
Proof.
  destruct r as [a|e]; cbn; intros [= <- <-]; split; eauto.
Qed.

(** Until the session is open the run writes nothing. *)
Lemma acquire_session_same_files w vmem st :
  same_files st (snd (acquire_session w vmem st)).
Proof.
  rewrite acquire_session_eq.
  assert (Hcfg : same_files st (snd (get_config w vmem st))).
  { unfold get_config.
    assert (Hfile : same_files st
              (snd ((ensureFileExist w "config.json" ;;; call (load_config w)) st))).
    { unfold bind. assert (H := ensureFileExist_same_files w "config.json" st).
      destruct (ensureFileExist w "config.json" st) as [[[]|e|n] st1];
        cbn [snd] in *; try exact H.
      destruct (call (load_config w) st1) as [o st2] eqn:E.
      apply call_inv in E as [-> _]. exact H. }
    destruct vmem as [[|c r]|]; try exact Hfile.
    destruct (Py.splitext (String c r)) as [image_base image_ext].
    destruct (negb (String.eqb image_ext ".vmem")); apply same_files_refl. }
  unfold bind at 1.
  destruct (get_config w vmem st) as [[config|e|n] st1]; cbn [snd] in *;
    try exact Hcfg.
  apply (same_files_trans _ _ _ Hcfg). unfold open_image, bind.
  destruct (image config) as [p|]; cbn; [|apply same_files_refl].
  assert (H := ensureFileExist_same_files w p st1).
  destruct (ensureFileExist w p st1) as [[[]|e|n] st2]; cbn [snd] in *;
    try exact H.
  destruct (Session_open w p (dtb config) (kernel_base config)); exact H.
Qed.

Lemma cg_read_failure w s path label st e :
  read_secure_world s (find_secure_world_pages s (physical_size s)) = Raise e ->
  _cg w s path label st = (Raised e, st).
Proof. intros H. unfold _cg. rewrite H. reflexivity. Qed.

(** C5: a failing read of one secure-world page is not caught anywhere:
    [read_secure_world] raises it, so does [_cg] (before it writes the
    blob), so does [_dump] (nothing has been written by then), and so
    does [dump] unless the exception is an interruption. *)
Theorem secure_world_read_failure_aborts
    w label path config s st0 st lsass row pre addr post e :
  path <> EmptyString ->
  acquire_session w (Some path) st0 = (Return (config, s), st) ->
  List.find (is_process "lsass.exe") (pslist_PsActiveProcessHead s) = Some lsass ->
  List.find (is_process "lsaiso.exe") (pslist s) = Some row ->
  find_secure_world_pages s (physical_size s) = pre ++ addr :: post ->
  Forall (fun a => exists data, base_read s a PAGE_SIZE = Ok data) pre ->
  base_read s addr PAGE_SIZE = Raise e ->
  read_secure_world s (pre ++ addr :: post) = Raise e
  /\ _cg w s path label st = (Raised e, st)
  /\ _dump w label (Some path) st0 = (Raised e, st)
  /\ same_files st0 st
  /\ (e <> KeyboardInterrupt ->
      dump w label (Some path) st0 = (Raised e, st)).
Proof.
  intros Hpath Hacq Hlsass Hiso Hpages Hpre Hfail.
  assert (Hread : read_secure_world s (pre ++ addr :: post) = Raise e).
  { unfold read_secure_world.
    now rewrite (read_pages_raise _ e addr post pre [] Hpre Hfail). }
  assert (Hcg : _cg w s path label st = (Raised e, st)).
  { apply cg_read_failure. now rewrite Hpages. }
  assert (Hdump : _dump w label (Some path) st0 = (Raised e, st)).
  { rewrite _dump_eq. apply bind_Raised.
    rewrite assemble_eq, (bind_Return _ _ _ _ _ Hacq).
    unfold locate_and_gather. cbn [fst snd].
    destruct (find_lsass_cases s st) as [(r & Hf & Hr)|[Hf _]]; [|congruence].
    rewrite (bind_Return _ _ _ _ _ Hr). unfold gather. apply bind_Raised.
    unfold credential_guard. rewrite Hiso.
    destruct path as [|c p]; [congruence|].
    apply bind_Raised. exact Hcg. }
  split; [exact Hread|]. split; [exact Hcg|]. split; [exact Hdump|].
  split.
  - assert (H := acquire_session_same_files w (Some path) st0).
    now rewrite Hacq in H.
  - intros Hn. unfold dump. rewrite Hdump. destruct e; congruence.
Qed.

(** One secure-world page is read, the next read fails: the run stops
    with that failure and writes nothing. *)
Lemma secure_world_read_failure_aborts_witness :
  _dump (demo_world true bad_read) "lab" (Some "lsass.vmem"%string) boot
  = (Raised (CollaboratorError "read"), slept 2 boot)
  /\ same_files boot (slept 2 boot).
Proof.
  assert (Hpath : "lsass.vmem"%string <> EmptyString) by discriminate.
  assert (Hacq : acquire_session (demo_world true bad_read)
                   (Some "lsass.vmem"%string) boot
                 = (Return ({| image := Some "lsass.vmem"%string; dtb := None;
                               kernel_base := None; build := None |},
                            demo_session bad_read), slept 2 boot))
    by (vm_compute; reflexivity).
  assert (Hlsass : List.find (is_process "lsass.exe")
                     (pslist_PsActiveProcessHead (demo_session bad_read))
                   = Some demo_lsass) by (vm_compute; reflexivity).
  assert (Hiso : List.find (is_process "lsaiso.exe")
                   (pslist (demo_session bad_read))
                 = Some demo_lsaiso) by (vm_compute; reflexivity).
  assert (Hpages : find_secure_world_pages (demo_session bad_read)
                     (physical_size (demo_session bad_read))
                   = [0x3000] ++ 0x7000 :: []) by (vm_compute; reflexivity).
  assert (Hpre : Forall (fun a => exists data,
                           base_read (demo_session bad_read) a PAGE_SIZE
                           = Ok data) [0x3000]).
  { constructor; [|constructor]. eexists. vm_compute. reflexivity. }
  assert (Hfail : base_read (demo_session bad_read) 0x7000 PAGE_SIZE
                  = Raise (CollaboratorError "read"))
    by (vm_compute; reflexivity).
  destruct (secure_world_read_failure_aborts
              (demo_world true bad_read) "lab" "lsass.vmem" _ _ boot _ _ _
              _ _ _ _ Hpath Hacq Hlsass Hiso Hpages Hpre Hfail)
    as (_ & _ & Hdump & Hsame & _).
  split; [exact Hdump | exact Hsame].
Defined.

(* ================================================================== *)
(** ** The output directory *)

Lemma write_file_in_existing_dir w filepath data st :
  Py.dirname filepath <> EmptyString ->
  exists_now w (Py.dirname filepath) st = true ->
  write_file w filepath data st
  = (Return tt, {| clock := clock st; made_dirs := made_dirs st;
                   written := (filepath, data) :: written st |}).
Proof.
  intros Hd He. unfold write_file. apply String.eqb_neq in Hd. rewrite Hd.
  unfold bind, os_path_exists. fold (exists_now w (Py.dirname filepath) st).
  now rewrite He.
Qed.

Lemma write_file_in_missing_dir w filepath data st :
  Py.dirname filepath <> EmptyString ->
  exists_now w (Py.dirname filepath) st = false ->
  write_file w filepath data st = (Raised (FileNotFoundError filepath), st).
Proof.
  intros Hd He. unfold write_file. apply String.eqb_neq in Hd. rewrite Hd.
  unfold bind, os_path_exists. fold (exists_now w (Py.dirname filepath) st).
  now rewrite He.
Qed.

(** Persist makes [output] when it is missing: the container lands in
    [output] whether the directory was there or not. *)
Lemma persist_makes_output w label data st :
  Py.dirname ("output/" ++ label ++ "-" ++ today w (clock st) ++ "-lsass.dmp")
  = "output"%string ->
  exists st', persist w label data st = (Return tt, st')
              /\ exists_now w "output" st' = true
              /\ In ("output/" ++ label ++ "-" ++ today w (clock st)
                     ++ "-lsass.dmp", data)%string (written st').
Proof.
  intros Hdir. unfold persist, bind at 1, os_path_exists.
  fold (exists_now w "output" st).
  destruct (exists_now w "output" st) eqn:E; cbn [negb].
  - unfold bind, ret, dump_path.
    rewrite (write_file_in_existing_dir w _ data st);
      [|rewrite Hdir; discriminate | rewrite Hdir; exact E].
    eexists. split; [reflexivity|]. split; [|now left].
    unfold exists_now in *. cbn [clock made_dirs written existsb fst].
    apply orb_true_iff in E as [E|E]; rewrite E; [reflexivity|].
    now rewrite !orb_true_r.
  - unfold bind, os_mkdir, bind, os_path_exists.
    fold (exists_now w "output" st). rewrite E.
    unfold dump_path. cbn [clock].
    rewrite write_file_in_existing_dir;
      [|rewrite Hdir; discriminate
       |rewrite Hdir; unfold exists_now; cbn; now rewrite orb_true_r].
    eexists. split; [reflexivity|]. split; [|now left].
    unfold exists_now. cbn. now rewrite orb_true_r.
Qed.

(** [_cg] writes the blob without making [output]: when the directory is
    missing the write raises. *)
Lemma cg_needs_output w s path label st secure_world :
  read_secure_world s (find_secure_world_pages s (physical_size s))
  = Ok secure_world ->
  Py.dirname ("output/" ++ label ++ "-" ++ today w (clock st)
              ++ "-secure-world.raw") = "output"%string ->
  exists_now w "output" st = false ->
  _cg w s path label st
  = (Raised (FileNotFoundError
               ("output/" ++ label ++ "-" ++ today w (clock st)
                ++ "-secure-world.raw")), st).
Proof.
  intros Hread Hdir He. unfold _cg. rewrite Hread.
  unfold call, bind at 1, ret, bind at 1, secure_world_path, bind.
  rewrite (write_file_in_missing_dir w _ secure_world st);
    [reflexivity | rewrite Hdir; discriminate | rewrite Hdir; exact He].
Qed.

(** C9 fails on the code: with Credential Guard on, a local image and no
    [output] directory, the secure-world blob is written before the
    directory is made, and the run ends in [FileNotFoundError]; no dump
    is written. *)
Lemma secure_world_blob_written_before_output_exists :
  exists_now (demo_world false good_read) "output" boot = false
  /\ _dump (demo_world false good_read) "lab" (Some "lsass.vmem"%string) boot
     = (Raised (FileNotFoundError "output/lab-2020-01-01-secure-world.raw"),
        slept 2 boot).
Proof. split; vm_compute; reflexivity. Qed.

(* ================================================================== *)
(** ** The region records of the assembled dump *)

Lemma bind_Return_inv {A B} (c : M A) (k : A -> M B) st b st' :
  bind c k st = (Return b, st') ->
  exists a st1, c st = (Return a, st1) /\ k a st1 = (Return b, st').
Proof.
  intros H.
  destruct (bind_cases c k st)
    as [(a & st1 & E & Eb)|[(e & st1 & E & Eb)|(n & st1 & E & Eb)]];
    rewrite Eb in H; [eauto | discriminate | discriminate].
Qed.

(** The region list handed to the builder is the one [read_memory_fast]
    returned. *)
Lemma assemble_memoryinfo w label vmem st md st' :
  assemble w label vmem st = (Return md, st') ->
  exists s module_list infos blocks,
    read_memory_fast s module_list = Ok (infos, blocks)
    /\ md_memoryinfo_list md = Some infos.
Proof.
  rewrite assemble_eq. intros H.
  apply bind_Return_inv in H as ([config s] & st1 & _ & H).
  unfold locate_and_gather in H. cbn [fst snd] in H.
  apply bind_Return_inv in H as (lsass_pid & st2 & _ & H).
  unfold gather in H.
  apply bind_Return_inv in H as (md1 & st3 & _ & H).
  apply bind_Return_inv in H as (b & st4 & _ & H).
  apply bind_Return_inv in H as ([infos blocks] & st5 & Hcall & H).
  apply call_inv in Hcall as [_ [(a & Hr & [= <-])|(e & _ & He)]];
    [|discriminate].
  injection H as <- _.
  exists s, (read_modulelist s lsass_pid), infos, blocks. split; [exact Hr|].
  reflexivity.
Qed.

Lemma open_image_with_vaddump f w config st :
  open_image (with_vaddump f w) config st
  = match open_image w config st with
    | (Return (c, s), st') => (Return (c, set_vaddump f s), st')
    | r => r
    end.
Proof.
  unfold open_image.
  destruct (image config) as [p|]; [|reflexivity].
  unfold bind, ret. rewrite ensureFileExist_with_vaddump.
  destruct (ensureFileExist w p st) as [[[]|e|n] st1]; try reflexivity.
  cbn [Session_open with_vaddump].
  destruct (Session_open w p (dtb config) (kernel_base config)); reflexivity.
Qed.

Lemma get_config_with_vaddump f w vmem st :
  get_config (with_vaddump f w) vmem st = get_config w vmem st.
Proof.
  unfold get_config.
  assert (Hfile : (ensureFileExist (with_vaddump f w) "config.json" ;;;
                   call (load_config (with_vaddump f w))) st
                  = (ensureFileExist w "config.json" ;;;
                     call (load_config w)) st).
  { unfold bind. now rewrite ensureFileExist_with_vaddump. }
  destruct vmem as [[|c r]|]; [exact Hfile | reflexivity | exact Hfile].
Qed.

Lemma locate_and_gather_with_vaddump f w label vmem config s st :
  locate_and_gather (with_vaddump f w) label vmem (config, set_vaddump f s) st
  = locate_and_gather w label vmem (config, s) st.
Proof. reflexivity. Qed.

(** Nothing a run does depends on the rows of [vaddump], the only
    thing [read_memoryinfo] reads. *)
Lemma _dump_with_vaddump f w label vmem st :
  _dump (with_vaddump f w) label vmem st = _dump w label vmem st.
Proof.
  rewrite !_dump_eq, !assemble_eq, !acquire_session_eq.
  change (build_and_persist (with_vaddump f w)) with (build_and_persist w).
  unfold bind. rewrite get_config_with_vaddump.
  destruct (get_config w vmem st) as [[config|e|n] st1]; try reflexivity.
  rewrite open_image_with_vaddump.
  destruct (open_image w config st1) as [[[c s]|e|n] st2];
    rewrite ?locate_and_gather_with_vaddump; reflexivity.
Qed.

Example read_memoryinfo_reads_vaddump :
  read_memoryinfo
    (set_vaddump (fun _ => [ {| vad_start := Some 0x1000; vad_end := 0x1fff;
                               vad_protect := 4; vad_type := "Private" |} ])
                 (demo_session good_read)) 624
  = [ {| BaseAddress := 0x1000; AllocationBase := 0; AllocationProtect := 4;
         RegionSize := 0x1000; Protect := 4; State := 0;
         Type_ := MEM_PRIVATE |} ].
Proof. reflexivity. Qed.

(** C10: every region record of the assembled dump has AllocationBase,
    AllocationProtect, Protect, State and Type equal to 0, whatever the
    capture; and the run does not depend on [vaddump], the rows from
    which [read_memoryinfo] would take protections and types: the
    orchestrator never consults it. *)
Theorem assembled_regions_have_zero_metadata w label vmem st md st' :
  assemble w label vmem st = (Return md, st') ->
  (exists infos, md_memoryinfo_list md = Some infos
                 /\ Forall zero_metadata infos)
  /\ (forall f, dump (with_vaddump f w) label vmem st = dump w label vmem st).
Proof.
  intros H. split.
  - destruct (assemble_memoryinfo _ _ _ _ _ _ H)
      as (s & module_list & infos & blocks & Hr & Hmd).
    exists infos. split; [exact Hmd|].
    exact (read_memory_fast_zero_metadata _ _ _ _ Hr).
  - intros f. unfold dump. now rewrite _dump_with_vaddump.
Qed.

Lemma assembled_regions_have_zero_metadata_witness :
  exists md st',
    assemble (demo_world true good_read) "lab" (Some "lsass.vmem"%string) boot
    = (Return md, st')
    /\ exists infos, md_memoryinfo_list md = Some infos
                     /\ Forall zero_metadata infos.
Proof.
  destruct (assemble (demo_world true good_read) "lab"
                     (Some "lsass.vmem"%string) boot)
    as [[md|e|n] st'] eqn:E;
    [|vm_compute in E; discriminate | vm_compute in E; discriminate].
  exists md, st'. split; [reflexivity|].
  exact (proj1 (assembled_regions_have_zero_metadata _ _ _ _ _ _ E)).
Defined.

(* ================================================================== *)
(** ** The definitions at work on the small capture *)

(** Section 8 of the specification: pages 3 and 7 out of 10 match, the
    blob is page 3 followed by page 7. *)
Example scan_finds_pages_3_and_7 :
  find_secure_world_pages (demo_session good_read)
                          (physical_size (demo_session good_read))
  = [3 * 4096; 7 * 4096]
  /\ read_secure_world (demo_session good_read) [3 * 4096; 7 * 4096]
     = Ok (repeat x33 (Z.to_nat 4096) ++ repeat x77 (Z.to_nat 4096)).
Proof. split; vm_compute; reflexivity. Qed.

Lemma secure_world_scan_and_blob_witness :
  Forall2 (fun addr data => base_read (demo_session good_read) addr 4096
                            = Ok data)
          (find_secure_world_pages (demo_session good_read) 0xA000)
          [repeat x33 (Z.to_nat 4096); repeat x77 (Z.to_nat 4096)]
  /\ read_secure_world (demo_session good_read)
       (find_secure_world_pages (demo_session good_read) 0xA000)
     = Ok (List.concat [repeat x33 (Z.to_nat 4096);
                        repeat x77 (Z.to_nat 4096)]).
Proof.
  assert (H : Forall2 (fun addr data =>
                         base_read (demo_session good_read) addr 4096 = Ok data)
                (find_secure_world_pages (demo_session good_read) 0xA000)
                [repeat x33 (Z.to_nat 4096); repeat x77 (Z.to_nat 4096)]).
  { change (find_secure_world_pages (demo_session good_read) 0xA000)
      with [0x3000; 0x7000].
    repeat constructor. }
  split; [exact H|].
  exact (proj1 (proj2 (proj2 (secure_world_scan_and_blob _ _ _ H)))).
Defined.

Lemma failed_reads_are_zero_filled_witness :
  pslist_lsass (demo_session good_read) = [demo_lsass]
  /\ exists infos blocks,
       read_memory_fast (demo_session good_read)
                        [("b.dll", 40, 10); ("a.dll", 0, 20)]%string
       = Ok (infos, blocks)
       /\ In (0, 5, zeros 5) blocks.
Proof.
  assert (H : pslist_lsass (demo_session good_read) = [demo_lsass])
    by reflexivity.
  split; [exact H|].
  destruct (failed_reads_are_zero_filled
              (demo_session good_read)
              [("b.dll", 40, 10); ("a.dll", 0, 20)]%string _ _ H)
    as (infos & blocks & Hr & Hb & _).
  exists infos, blocks. split; [exact Hr|]. rewrite Hb. now left.
Defined.

(* ################################################################## *)
(** * Part III: further properties of the module *)

(* ================================================================== *)
(** ** More on the operation sequence *)

Lemma reconcile_kinds module_list ranges o :
  In o (reconcile module_list ranges) ->
  op_kind o = "pad"%string \/ op_kind o = "mem"%string.
Proof.
  intros H. apply reconcile_In in H as [(x & _ & ->)|(r & _ & ->)]; auto.
Qed.

(** X1: whatever the module list and the live ranges (overlapping,
    empty or inverted ones included), the operation sequence covers
    exactly the addresses of the modules and of the live ranges and is
    ordered by start address; every operation is labelled 'pad' or
    'mem', never 'fill', so the first branch of [if op == 'fill'] in the
    read loop is never taken. *)
Theorem reconcile_covers_union_and_never_fill module_list ranges :
  (forall a, covered (reconcile module_list ranges) a
             <-> in_modules module_list a \/ in_live ranges a)
  /\ StronglySorted (fun x y => op_start x <= op_start y)
                    (reconcile module_list ranges)
  /\ Forall (fun o => String.eqb (op_kind o) "fill" = false
                      /\ (op_kind o = "pad"%string \/ op_kind o = "mem"%string))
            (reconcile module_list ranges).
Proof.
  split; [intros a; apply reconcile_covered|].
  split; [apply sorted_by_start|].
  apply Forall_forall. intros o Ho.
  destruct (reconcile_kinds _ _ _ Ho) as [E|E]; rewrite E; auto.
Qed.



(* ================================================================== *)
(** ** The sequence does not depend on the order of enumeration *)

(** A normal form is determined by the addresses it contains. *)
Lemma canonical_unique : forall s t,
  I.canonical s -> I.canonical t ->
  (forall a, I.contains s a <-> I.contains t a) -> s = t.
Proof.
  assert (Hhead : forall x s y t,
            I.canonical (x :: s) -> I.canonical (y :: t) ->
            (forall a, I.contains (x :: s) a -> I.contains (y :: t) a) ->
            I.lower y <= I.lower x).
  { intros x s y t Hs Ht Hsub.
    assert (Hx : I.lower x < I.upper x) by (destruct Hs as [H _]; now inversion H).
    assert (Hy : I.lower y < I.upper y) by (destruct Ht as [H _]; now inversion H).
    destruct (Hsub (I.lower x)) as (z & Hz & Hin).
    { exists x. split; [now left | iv_unfold; lia]. }
    apply canonical_strongly in Ht. inversion Ht as [|? ? _ Hall]; subst.
    destruct Hz as [<-|Hz]; [apply Hin|].
    rewrite Forall_forall in Hall. destruct (Hall z Hz) as [Hsep _].
    iv_unfold. lia. }
  assert (Hupper : forall x s y t,
            I.canonical (x :: s) -> I.canonical (y :: t) ->
            (forall a, I.contains (y :: t) a -> I.contains (x :: s) a) ->
            I.lower x = I.lower y -> I.upper y <= I.upper x).
  { intros x s y t Hs Ht Hsub Hl.
    destruct (Z_lt_le_dec (I.upper x) (I.upper y)) as [Hlt|]; [exfalso|assumption].
    assert (Hx : I.lower x < I.upper x) by (destruct Hs as [H _]; now inversion H).
    destruct (Hsub (I.upper x)) as (z & Hz & Hin).
    { exists y. split; [now left | iv_unfold; lia]. }
    apply canonical_strongly in Hs. inversion Hs as [|? ? _ Hall]; subst.
    destruct Hz as [<-|Hz]; [iv_unfold; lia|].
    rewrite Forall_forall in Hall. destruct (Hall z Hz) as [Hsep _].
    iv_unfold. lia. }
  assert (Htail : forall x s, I.canonical (x :: s) ->
            I.canonical s
            /\ forall a, I.contains s a -> ~ I.inA a x).
  { intros x s Hc. split.
    - destruct Hc as [Hne HS]. inversion Hne; subst. inversion HS; subst.
      split; assumption.
    - intros a (z & Hz & Hin) Hax.
      apply canonical_strongly in Hc. inversion Hc as [|? ? _ Hall]; subst.
      rewrite Forall_forall in Hall. destruct (Hall z Hz) as [Hsep _].
      iv_unfold. lia. }
  induction s as [|x s IH]; intros [|y t] Hs Ht Heq.
  - reflexivity.
  - exfalso. destruct Ht as [Hne _]. inversion Hne; subst.
    apply (contains_nil (I.lower y)). apply Heq.
    exists y. split; [now left | iv_unfold; lia].
  - exfalso. destruct Hs as [Hne _]. inversion Hne; subst.
    apply (contains_nil (I.lower x)). apply Heq.
    exists x. split; [now left | iv_unfold; lia].
  - assert (Hl : I.lower x = I.lower y).
    { assert (H1 := Hhead x s y t Hs Ht (fun a => proj1 (Heq a))).
      assert (H2 := Hhead y t x s Ht Hs (fun a => proj2 (Heq a))). lia. }
    assert (Hu : I.upper x = I.upper y).
    { assert (H1 := Hupper x s y t Hs Ht (fun a => proj2 (Heq a)) Hl).
      assert (H2 := Hupper y t x s Ht Hs (fun a => proj1 (Heq a)) (eq_sym Hl)).
      lia. }
    assert (Exy : x = y) by (destruct x, y; iv_unfold; congruence).
    subst y. f_equal.
    destruct (Htail x s Hs) as [Hcs Hsx], (Htail x t Ht) as [Hct Htx].
    apply IH; [exact Hcs | exact Hct|].
    intros a. split; intros Ha.
    + destruct (proj1 (contains_cons x t a) (proj1 (Heq a)
                  (proj2 (contains_cons x s a) (or_intror Ha)))) as [H|H];
        [now apply Hsx in Ha | exact H].
    + destruct (proj1 (contains_cons x s a) (proj2 (Heq a)
                  (proj2 (contains_cons x t a) (or_intror Ha)))) as [H|H];
        [now apply Htx in Ha | exact H].
Qed.

Section SortedUnique.
Context {A : Type} (leb : A -> A -> bool).
Hypothesis leb_total : forall x y, leb x y = true \/ leb y x = true.
Hypothesis leb_trans :
  forall x y z, leb x y = true -> leb y z = true -> leb x z = true.
Hypothesis leb_antisym : forall x y, leb x y = true -> leb y x = true -> x = y.

Lemma strongly_sorted_unique : forall l l',
  StronglySorted (fun a b => leb a b = true) l ->
  StronglySorted (fun a b => leb a b = true) l' ->
  Permutation l l' -> l = l'.
Proof.
  induction l as [|x l IH]; intros l' Hl Hl' HP.
  - apply Permutation_nil in HP. now subst.
  - destruct l' as [|y l']; [now apply Permutation_sym, Permutation_nil in HP|].
    inversion Hl as [|? ? Hls Hlx]; subst.
    inversion Hl' as [|? ? Hls' Hly]; subst.
    rewrite Forall_forall in Hlx, Hly.
    assert (Exy : x = y).
    { assert (Hx : In x (y :: l'))
        by (eapply Permutation_in; [exact HP | now left]).
      assert (Hy : In y (x :: l))
        by (eapply Permutation_in; [symmetry; exact HP | now left]).
      destruct Hx as [->|Hx]; [reflexivity|].
      destruct Hy as [->|Hy]; [reflexivity|].
      apply leb_antisym; auto. }
    subst y. f_equal. apply IH; trivial.
    now apply Permutation_cons_inv in HP.
Qed.

(** [sorted] gives the same list for every arrangement of its input. *)
Lemma sorted_of_permutation l l' :
  Permutation l l' -> Py.sorted leb l = Py.sorted leb l'.
Proof.
  intros HP. apply strongly_sorted_unique.
  - apply Sorted_StronglySorted; [exact leb_trans | now apply sorted_Sorted].
  - apply Sorted_StronglySorted; [exact leb_trans | now apply sorted_Sorted].
  - rewrite !sorted_perm. exact HP.
Qed.

End SortedUnique.

Lemma pair_leb_iff x y :
  Py.pair_leb x y = true
  <-> fst x < fst y \/ (fst x = fst y /\ snd x <= snd y).
Proof. unfold Py.pair_leb. lia. Qed.

Lemma mem_list_of_permutation ranges ranges' :
  Permutation ranges ranges' ->
  Py.sorted Py.pair_leb ranges = Py.sorted Py.pair_leb ranges'.
Proof.
  apply sorted_of_permutation.
  - apply pair_leb_total.
  - intros x y z. rewrite !pair_leb_iff. lia.
  - intros [a b] [c d]. rewrite !pair_leb_iff. simpl. intros H1 H2.
    f_equal; lia.
Qed.

(** X3: the operation sequence depends only on the set of addresses the
    modules claim and on the live ranges as a collection: the order in
    which modules and ranges are enumerated, the module paths, and the
    way the modules divide their addresses among themselves make no
    difference. *)
Theorem reconcile_independent_of_enumeration
    module_list module_list' ranges ranges' :
  (forall a, in_modules module_list a <-> in_modules module_list' a) ->
  Permutation ranges ranges' ->
  reconcile module_list ranges = reconcile module_list' ranges'.
Proof.
  intros HM HL. unfold reconcile, operations.
  rewrite <- (mem_list_of_permutation _ _ HL).
  f_equal. f_equal. f_equal.
  apply canonical_unique; try apply find_filling_canonical.
  intros a.
  rewrite !(find_filling_contains _ _ _ (mem_list_sorted ranges)).
  rewrite !in_modules_sorted, HM. reflexivity.
Qed.

Lemma reconcile_independent_of_enumeration_witness :
  reconcile [("b.dll", 40, 10); ("a.dll", 0, 20)]%string [(30, 45); (5, 10)]
  = reconcile [("x", 0, 12); ("y", 8, 12); ("z", 40, 10)]%string
              [(5, 10); (30, 45)].
Proof.
  apply reconcile_independent_of_enumeration.
  - intros a. unfold in_modules, in_module. simpl. split.
    + intros (m & [<-|[<-|[]]] & H); simpl in H.
      * exists ("z"%string, 40, 10). simpl. auto.
      * destruct (Z_lt_le_dec a 12).
        -- exists ("x"%string, 0, 12). simpl. split; [auto | lia].
        -- exists ("y"%string, 8, 12). simpl. split; [auto | lia].
    + intros (m & [<-|[<-|[<-|[]]]] & H); simpl in H.
      * exists ("a.dll"%string, 0, 20). simpl. split; [auto | lia].
      * exists ("a.dll"%string, 0, 20). simpl. split; [auto | lia].
      * exists ("b.dll"%string, 40, 10). simpl. auto.
  - apply perm_swap.
Defined.

(* ================================================================== *)
(** ** The region records and content blocks *)

Lemma StronglySorted_map {A B} (f : A -> B) (R : B -> B -> Prop) l :
  StronglySorted (fun x y => R (f x) (f y)) l -> StronglySorted R (map f l).
Proof.
  induction 1 as [|x l _ IH Hall]; simpl; constructor; [exact IH|].
  apply Forall_map. exact Hall.
Qed.

(** X4: the region records come out in non-decreasing order of
    BaseAddress with one content block per record, in the same order;
    a pad region has a positive size, and no region has a negative size
    as long as no live range ends before it starts. *)
Theorem regions_follow_address_order s module_list task rest infos blocks :
  pslist_lsass s = task :: rest ->
  read_memory_fast s module_list = Ok (infos, blocks) ->
  StronglySorted (fun a b => BaseAddress a <= BaseAddress b) infos
  /\ StronglySorted (fun a b => block_start a <= block_start b) blocks
  /\ List.length infos = List.length blocks
  /\ (Forall (fun r => fst r <= snd r)
             (get_address_ranges (get_process_address_space task)
                                 (highest_usermode_address s)) ->
      Forall (fun mi => 0 <= RegionSize mi) infos).
Proof.
  intros Htask. unfold read_memory_fast. rewrite Htask, read_fill_eq.
  intros [= <- <-].
  set (ranges := get_address_ranges _ _).
  assert (HS := sorted_by_start (operations (Py.sorted module_leb module_list)
                                            (Py.sorted Py.pair_leb ranges))).
  fold (reconcile module_list ranges) in HS.
  split; [apply StronglySorted_map; exact HS|].
  split; [apply StronglySorted_map; exact HS|].
  split; [now rewrite !length_map|].
  intros Hwf. apply Forall_forall. intros mi Hmi.
  apply in_map_iff in Hmi as (o & <- & Ho).
  apply reconcile_In in Ho as [(x & Hx & ->)|(r & Hr & ->)].
  - destruct (find_filling_canonical (Py.sorted module_leb module_list)
                                     (Py.sorted Py.pair_leb ranges)) as [Hne _].
    rewrite Forall_forall in Hne. specialize (Hne x Hx).
    unfold region_of, pad_op, op_start, op_end. iv_unfold. lia.
  - rewrite Forall_forall in Hwf. specialize (Hwf r Hr).
    unfold region_of, mem_op, op_start, op_end. simpl. lia.
Qed.

Lemma regions_follow_address_order_witness :
  exists infos blocks,
    read_memory_fast (demo_session good_read)
                     [("b.dll", 40, 10); ("a.dll", 0, 20)]%string
    = Ok (infos, blocks)
    /\ StronglySorted (fun a b => BaseAddress a <= BaseAddress b) infos
    /\ List.length infos = List.length blocks.
Proof.
  destruct (read_memory_fast (demo_session good_read)
              [("b.dll", 40, 10); ("a.dll", 0, 20)]%string)
    as [[infos blocks]|e] eqn:E; [|vm_compute in E; discriminate].
  exists infos, blocks. split; [reflexivity|].
  destruct (regions_follow_address_order (demo_session good_read) _
              demo_lsass [] infos blocks eq_refl E) as (H1 & _ & H3 & _).
  split; assumption.
Defined.

(* ================================================================== *)
(** ** More on the secure-world scan *)

Lemma StronglySorted_filter {A} (R : A -> A -> Prop) (p : A -> bool) l :
  StronglySorted R l -> StronglySorted R (filter p l).
Proof.
  induction 1 as [|x l _ IH Hall]; simpl; [constructor|].
  destruct (p x); [|exact IH]. constructor; [exact IH|].
  rewrite Forall_forall in *. intros y Hy. apply filter_In in Hy as [Hy _]. auto.
Qed.

Lemma range_increasing n : StronglySorted Z.lt (Py.range n).
Proof.
  unfold Py.range. apply StronglySorted_map.
  generalize (Z.to_nat n) as k, 0%nat as start.
  induction k as [|k IH]; intros start; simpl; constructor; [apply IH|].
  apply Forall_forall. intros y Hy. apply in_seq in Hy. lia.
Qed.

(** X5: the addresses the scan yields are page aligned, strictly
    increasing (no page twice), and each page lies wholly below
    [image_size]; an image smaller than one page yields none. *)
Theorem secure_world_pages_aligned_and_bounded s image_size :
  Forall (fun addr => addr mod 4096 = 0
                      /\ 0 <= addr /\ addr + 4096 <= image_size)
         (find_secure_world_pages s image_size)
  /\ StronglySorted Z.lt (find_secure_world_pages s image_size)
  /\ (image_size < 4096 -> find_secure_world_pages s image_size = []).
Proof.
  rewrite find_secure_world_pages_eq. split; [|split].
  - apply Forall_forall. intros addr H.
    apply in_map_iff in H as (pfn & <- & H).
    apply filter_In in H as [H _]. apply range_In in H.
    split; [apply Z.mod_mul; lia|].
    assert (Hd := Z.mul_div_le image_size 4096 ltac:(lia)). lia.
  - apply StronglySorted_map.
    eapply StronglySorted_filter with (R := fun x y => x * 4096 < y * 4096).
    assert (H := range_increasing (image_size / 4096)).
    induction H as [|x l _ IH Hall]; constructor; [exact IH|].
    revert Hall. apply Forall_impl. intros y. lia.
  - intros Hsmall.
    assert (E : Py.range (image_size / 4096) = []).
    { unfold Py.range.
      assert (Hle : image_size / 4096 <= 0).
      { destruct (Z_lt_le_dec image_size 0) as [Hneg|Hpos].
        - assert (H := Z.div_lt_upper_bound image_size 4096 0 ltac:(lia) ltac:(lia)).
          lia.
        - rewrite Z.div_small; lia. }
      now replace (Z.to_nat (image_size / 4096)) with 0%nat by lia. }
    now rewrite E.
Qed.

(* ================================================================== *)
(** ** [read_memoryinfo] and [read_modulelist] *)

(** A loop that appends zero or more elements per round. *)
Lemma fold_left_appends {A B} (step : list A -> B -> list A) (f : B -> list A) :
  (forall acc x, step acc x = acc ++ f x) ->
  forall l acc, fold_left step l acc = acc ++ flat_map f l.
Proof.
  intros Hstep. induction l as [|x t IH]; intros acc; simpl.
  - now rewrite app_nil_r.
  - now rewrite IH, Hstep, app_assoc.
Qed.

Lemma read_memoryinfo_eq s pid :
  read_memoryinfo s pid
  = flat_map
      (fun d =>
         match vad_start d with
         | None => []
         | Some start =>
             [ {| BaseAddress := start;
                  AllocationBase := 0;
                  AllocationProtect := vad_protect d;
                  RegionSize := vad_end d - start + 1;
                  Protect := vad_protect d;
                  State := 0;
                  Type_ := if String.eqb (vad_type d) "Mapped" then MEM_MAPPED
                           else if String.eqb (vad_type d) "Private"
                                then MEM_PRIVATE else 0 |} ]
         end)
      (vaddump s pid).
Proof.
  unfold read_memoryinfo. rewrite <- (app_nil_l (flat_map _ _)).
  apply fold_left_appends. intros acc d.
  destruct (vad_start d); [reflexivity | now rewrite app_nil_r].
Qed.

(** X6: [read_memoryinfo] gives one record per [vaddump] row that has a
    start, in the order of the rows, and skips the others.  A record's
    RegionSize counts the end address in ([end - start + 1]), its two
    protection fields are both the row's protection, its State and
    AllocationBase are 0, and its Type is MEM_MAPPED, MEM_PRIVATE or 0
    (0 for every row type but 'Mapped' and 'Private'). *)
Theorem read_memoryinfo_records s pid :
  map BaseAddress (read_memoryinfo s pid)
  = flat_map (fun d => match vad_start d with Some a => [a] | None => [] end)
             (vaddump s pid)
  /\ Forall (fun mi =>
               AllocationBase mi = 0 /\ State mi = 0
               /\ AllocationProtect mi = Protect mi
               /\ (Type_ mi = 0x40000 \/ Type_ mi = 0x20000 \/ Type_ mi = 0)
               /\ exists d, In d (vaddump s pid)
                            /\ vad_start d = Some (BaseAddress mi)
                            /\ RegionSize mi = vad_end d - BaseAddress mi + 1
                            /\ Protect mi = vad_protect d
                            /\ (Type_ mi = 0x40000
                                <-> vad_type d = "Mapped"%string)
                            /\ (Type_ mi = 0x20000
                                <-> vad_type d = "Private"%string))
            (read_memoryinfo s pid).
Proof.
  rewrite read_memoryinfo_eq. split.
  - induction (vaddump s pid) as [|d t IH]; [reflexivity|]. simpl.
    rewrite map_app, IH. now destruct (vad_start d).
  - apply Forall_forall. intros mi Hmi.
    apply in_flat_map in Hmi as (d & Hd & Hmi).
    destruct (vad_start d) as [start|] eqn:Es; [|destruct Hmi].
    destruct Hmi as [<-|[]]. simpl. repeat split; trivial.
    + destruct (String.eqb (vad_type d) "Mapped");
        [|destruct (String.eqb (vad_type d) "Private")]; auto.
    + exists d. repeat split; trivial;
        destruct (String.eqb_spec (vad_type d) "Mapped") as [E|E];
        try destruct (String.eqb_spec (vad_type d) "Private") as [E'|E'];
        unfold MEM_MAPPED, MEM_PRIVATE; try congruence; try discriminate;
        intros; try lia; try congruence.
Qed.

Lemma read_modulelist_eq s pid :
  read_modulelist s pid
  = flat_map
      (fun dll =>
         match dll_path dll with
         | Some path =>
             if (1 <? String.length path)%nat
             then [(path, base dll, size dll)] else []
         | None => []
         end)
      (dlllist s pid).
Proof.
  unfold read_modulelist. rewrite <- (app_nil_l (flat_map _ _)).
  apply fold_left_appends. intros acc dll. destruct (dll_path dll) as [path|].
  - destruct (1 <? String.length path)%nat; [reflexivity | now rewrite app_nil_r].
  - now rewrite app_nil_r.
Qed.

(** X7: [read_modulelist] keeps exactly the [dlllist] rows that have a
    path of at least two characters, as [(path, base, size)] and in the
    order of the rows; rows without a path, or with an empty or
    one-character path, are dropped. *)
Theorem read_modulelist_keeps_named_modules s pid :
  (forall m, In m (read_modulelist s pid)
             <-> exists dll, In dll (dlllist s pid)
                             /\ dll_path dll = Some (fst (fst m))
                             /\ (2 <= String.length (fst (fst m)))%nat
                             /\ base dll = snd (fst m) /\ size dll = snd m)
  /\ read_modulelist s pid
     = map (fun dll => (match dll_path dll with Some p => p | None => EmptyString end,
                        base dll, size dll))
           (filter (fun dll => match dll_path dll with
                               | Some p => (1 <? String.length p)%nat
                               | None => false
                               end) (dlllist s pid)).
Proof.
  rewrite read_modulelist_eq. split.
  - intros [[path b] z]. rewrite in_flat_map. simpl. split.
    + intros (dll & Hd & Hm). destruct (dll_path dll) as [p|] eqn:Ep; [|destruct Hm].
      destruct (1 <? String.length p)%nat eqn:El; [|destruct Hm].
      destruct Hm as [[= <- <- <-]|[]]. exists dll. apply Nat.ltb_lt in El.
      repeat split; trivial; lia.
    + intros (dll & Hd & Ep & Hl & <- & <-). exists dll. split; [exact Hd|].
      rewrite Ep. assert (El : (1 <? String.length path)%nat = true)
        by (apply Nat.ltb_lt; lia).
      rewrite El. now left.
  - induction (dlllist s pid) as [|dll t IH]; [reflexivity|]. simpl.
    rewrite IH. destruct (dll_path dll) as [p|] eqn:Ep; [|reflexivity].
    destruct (1 <? String.length p)%nat; [|reflexivity].
    simpl. now rewrite Ep.
Qed.

(* ================================================================== *)
(** ** Inversion of the steps of a run *)

Lemma write_file_inv w filepath data st st' :
  write_file w filepath data st = (Return tt, st') ->
  st' = wrote filepath data st
  /\ (Py.dirname filepath = EmptyString
      \/ exists_now w (Py.dirname filepath) st = true).
Proof.
  unfold write_file, bind.
  destruct (String.eqb_spec (Py.dirname filepath) "") as [E|E].
  - cbn. intros [= <-]. auto.
  - unfold os_path_exists. fold (exists_now w (Py.dirname filepath) st).
    destruct (exists_now w (Py.dirname filepath) st); [|discriminate].
    intros [= <-]. auto.
Qed.

(** When [_cg] returns, it returns the bytes it read, and it has written
    exactly those bytes to the secure-world file. *)
Lemma cg_inv w s path label st blob st' :
  _cg w s path label st = (Return blob, st') ->
  read_secure_world s (find_secure_world_pages s (physical_size s)) = Ok blob
  /\ st' = wrote (secure_world_file w label st) blob st.
Proof.
  unfold _cg. intros H.
  apply bind_Return_inv in H as (sw & st1 & Hcall & H).
  apply call_inv in Hcall as [-> [(a & Hr & [= <-])|(e & _ & He)]];
    [|discriminate].
  apply bind_Return_inv in H as (fp & st2 & Hfp & H).
  injection Hfp as <- <-.
  apply bind_Return_inv in H as ([] & st3 & Hw & H).
  injection H as <- <-.
  apply write_file_inv in Hw as [-> _]. auto.
Qed.

Lemma credential_guard_inv w s label vmem md st md' st' :
  credential_guard w s label vmem md st = (Return md', st') ->
  (md' = md /\ st' = st
   /\ (falsy vmem
       \/ List.find (is_process "lsaiso.exe") (pslist s) = None))
  \/ (exists path row blob,
        vmem = Some path /\ path <> EmptyString
        /\ List.find (is_process "lsaiso.exe") (pslist s) = Some row
        /\ _cg w s path label st = (Return blob, st')
        /\ md' = set_secure_world md blob).
Proof.
  unfold credential_guard, falsy.
  destruct (List.find (is_process "lsaiso.exe") (pslist s)) as [row|].
  - destruct vmem as [[|c p]|].
    + intros [= <- <-]. left. auto.
    + intros H. apply bind_Return_inv in H as (blob & st1 & Hcg & H).
      injection H as <- <-. right. exists (String c p), row, blob.
      repeat split; trivial. discriminate.
    + intros [= <- <-]. left. auto.
  - intros [= <- <-]. left. auto.
Qed.

Lemma get_build_state config s st o st' :
  get_build config s st = (o, st') -> st' = st.
Proof.
  unfold get_build. destruct (build config); [now intros [= _ <-]|].
  destruct (List.find _ (imageinfo s)) as [x|]; [|now intros [= _ <-]].
  intros H. now apply call_inv in H as [-> _].
Qed.

Lemma gather_inv w label vmem config s lsass_pid st md st' :
  gather w label vmem config s lsass_pid st = (Return md, st') ->
  exists md0 b infos blocks,
    credential_guard w s label vmem Minidump_new st = (Return md0, st')
    /\ get_build config s st' = (Return b, st')
    /\ read_memory_fast s (read_modulelist s lsass_pid) = Ok (infos, blocks)
    /\ md = set_module_list
              (set_memory64
                 (set_memoryinfo_list
                    (set_systeminfo md0 (read_systeminfo s b)) infos) blocks)
              (read_modulelist s lsass_pid).
Proof.
  unfold gather. intros H.
  apply bind_Return_inv in H as (md0 & st1 & Hcg & H).
  apply bind_Return_inv in H as (b & st2 & Hb & H).
  assert (E2 := get_build_state _ _ _ _ _ Hb). subst st2.
  apply bind_Return_inv in H as ([infos blocks] & st3 & Hcall & H).
  apply call_inv in Hcall as [-> [(a & Hr & [= <-])|(e & _ & He)]];
    [|discriminate].
  injection H as <- <-.
  exists md0, b, infos, blocks. auto.
Qed.

Lemma assemble_inv w label vmem st md st' :
  assemble w label vmem st = (Return md, st') ->
  exists config s st1 row,
    acquire_session w vmem st = (Return (config, s), st1)
    /\ List.find (is_process "lsass.exe") (pslist_PsActiveProcessHead s)
       = Some row
    /\ gather w label vmem config s (pid row) st1 = (Return md, st').
Proof.
  rewrite assemble_eq. intros H.
  apply bind_Return_inv in H as ([config s] & st1 & Hacq & H).
  unfold locate_and_gather in H. cbn [fst snd] in H.
  destruct (find_lsass_cases s st1) as [(row & Hf & Hr)|[_ Hr]].
  - rewrite (bind_Return _ _ _ _ _ Hr) in H. exists config, s, st1, row. auto.
  - rewrite (bind_SysExit _ _ _ _ _ Hr) in H. discriminate.
Qed.

(* ================================================================== *)
(** ** What a run hands to the builder *)

(** X8: whenever the container is assembled, all four mandatory fields
    are set: the system information carries the profile's major and
    minor version, the module list is that of the first process whose
    lower-cased name is lsass.exe, in the order of enumeration (not the
    sorted order [read_memory_fast] works on), and the region and
    content lists are what [read_memory_fast] returned for that module
    list. *)
Theorem assembled_dump_is_complete w label vmem st md st' :
  assemble w label vmem st = (Return md, st') ->
  exists config s st1 row b infos blocks,
    acquire_session w vmem st = (Return (config, s), st1)
    /\ List.find (is_process "lsass.exe") (pslist_PsActiveProcessHead s)
       = Some row
    /\ Py.lower (name row) = "lsass.exe"%string
    /\ read_memory_fast s (read_modulelist s (pid row)) = Ok (infos, blocks)
    /\ md_systeminfo md
       = Some {| MajorVersion := metadata_major s;
                 MinorVersion := metadata_minor s; BuildNumber := b |}
    /\ md_module_list md = Some (read_modulelist s (pid row))
    /\ md_memoryinfo_list md = Some infos
    /\ md_memory64 md = Some blocks.
Proof.
  intros H. apply assemble_inv in H as (config & s & st1 & row & Hacq & Hf & H).
  apply gather_inv in H as (md0 & b & infos & blocks & _ & _ & Hr & ->).
  exists config, s, st1, row, b, infos, blocks.
  repeat split; trivial.
  apply find_some in Hf as [_ Hf]. unfold is_process in Hf.
  now apply String.eqb_eq in Hf.
Qed.

Lemma assembled_dump_is_complete_witness :
  exists md st',
    assemble (demo_world true good_read) "lab" (Some "lsass.vmem"%string) boot
    = (Return md, st')
    /\ md_module_list md = Some [("b.dll", 40, 10); ("a.dll", 0, 20)]%string.
Proof.
  destruct (assemble (demo_world true good_read) "lab"
                     (Some "lsass.vmem"%string) boot)
    as [[md|e|n] st'] eqn:E;
    [|vm_compute in E; discriminate | vm_compute in E; discriminate].
  exists md, st'. split; [reflexivity|].
  destruct (assembled_dump_is_complete _ _ _ _ _ _ E)
    as (config & s & st1 & row & b & infos & blocks
        & Hacq & Hf & _ & _ & _ & Hm & _).
  assert (Hacq' : acquire_session (demo_world true good_read)
                    (Some "lsass.vmem"%string) boot
                  = (Return ({| image := Some "lsass.vmem"%string; dtb := None;
                                kernel_base := None; build := None |},
                             demo_session good_read), slept 2 boot))
    by (vm_compute; reflexivity).
  rewrite Hacq' in Hacq. injection Hacq as <- <- <-.
  assert (Hrow : Some row = Some demo_lsass) by (rewrite <- Hf; reflexivity).
  injection Hrow as ->. exact Hm.
Defined.

Lemma acquire_then_gather_same_files w label vmem config s lsass_pid st st1 md st' :
  acquire_session w vmem st = (Return (config, s), st1) ->
  gather w label vmem config s lsass_pid st1 = (Return md, st') ->
  (falsy vmem \/ List.find (is_process "lsaiso.exe") (pslist s) = None) ->
  md_secure_world md = None /\ same_files st st'.
Proof.
  intros Hacq Hg Hno.
  apply gather_inv in Hg as (md0 & b & infos & blocks & Hcg & _ & _ & ->).
  apply credential_guard_inv in Hcg
    as [(-> & -> & _)|(path & row & blob & -> & Hp & Hiso & _)].
  - split; [reflexivity|].
    assert (H := acquire_session_same_files w vmem st). now rewrite Hacq in H.
  - exfalso. destruct Hno as [[H|H]|H]; congruence.
Qed.

(** X9: without a local image path ([vmem] absent or empty) the secure
    world is never extracted, Credential Guard or not: the assembled
    container has no secure-world blob, and nothing has been written by
    the time it is assembled. *)
Theorem no_local_image_no_secure_world w label vmem st md st' :
  falsy vmem ->
  assemble w label vmem st = (Return md, st') ->
  md_secure_world md = None /\ same_files st st'.
Proof.
  intros Hv H.
  apply assemble_inv in H as (config & s & st1 & row & Hacq & _ & Hg).
  eapply acquire_then_gather_same_files; eauto.
Qed.

Lemma no_local_image_no_secure_world_witness :
  falsy None
  /\ exists md st',
       assemble config_file_world "lab" None boot = (Return md, st')
       /\ md_secure_world md = None /\ same_files boot st'.
Proof.
  assert (Hv : falsy None) by (left; reflexivity).
  split; [exact Hv|].
  destruct (assemble config_file_world "lab" None boot)
    as [[md|e|n] st'] eqn:E;
    [|vm_compute in E; discriminate | vm_compute in E; discriminate].
  exists md, st'. split; [reflexivity|].
  exact (no_local_image_no_secure_world _ _ _ _ _ _ Hv E).
Defined.

(** X10: when the assembled container does carry a secure-world blob,
    a local image was given, lsaiso.exe is in the full process list,
    the blob is the concatenation of the page reads, and the only file
    written so far is the secure-world file, holding exactly that blob. *)
Theorem secure_world_blob_is_the_file_written w label vmem st md st' blob :
  assemble w label vmem st = (Return md, st') ->
  md_secure_world md = Some blob ->
  exists path config s st1 row,
    vmem = Some path /\ path <> EmptyString
    /\ acquire_session w vmem st = (Return (config, s), st1)
    /\ List.find (is_process "lsaiso.exe") (pslist s) = Some row
    /\ read_secure_world s (find_secure_world_pages s (physical_size s))
       = Ok blob
    /\ st' = wrote (secure_world_file w label st1) blob st1
    /\ same_files st st1.
Proof.
  intros H Hblob.
  apply assemble_inv in H as (config & s & st1 & lsass & Hacq & _ & Hg).
  apply gather_inv in Hg as (md0 & b & infos & blocks & Hcg & _ & _ & ->).
  apply credential_guard_inv in Hcg
    as [(-> & -> & _)|(path & row & blob' & -> & Hp & Hiso & Hcg & ->)];
    [discriminate|].
  injection Hblob as ->.
  apply cg_inv in Hcg as [Hread ->].
  assert (Hsame := acquire_session_same_files w (Some path) st).
  rewrite Hacq in Hsame.
  exists path, config, s, st1, row. auto 10.
Qed.

Lemma secure_world_blob_is_the_file_written_witness :
  exists md st' blob,
    assemble (demo_world true good_read) "lab" (Some "lsass.vmem"%string) boot
    = (Return md, st')
    /\ md_secure_world md = Some blob
    /\ written st' = [("output/lab-2020-01-01-secure-world.raw"%string, blob)].
Proof.
  destruct (assemble (demo_world true good_read) "lab"
                     (Some "lsass.vmem"%string) boot)
    as [[md|e|n] st'] eqn:E;
    [|vm_compute in E; discriminate | vm_compute in E; discriminate].
  destruct (md_secure_world md) as [blob|] eqn:Eb.
  - exists md, st', blob. split; [reflexivity|]. split; [exact Eb|].
    destruct (secure_world_blob_is_the_file_written _ _ _ _ _ _ blob E Eb)
      as (path & config & s & st1 & row & _ & _ & Hacq & _ & _ & -> & _).
    assert (Hacq' : acquire_session (demo_world true good_read)
                      (Some "lsass.vmem"%string) boot
                    = (Return ({| image := Some "lsass.vmem"%string;
                                  dtb := None; kernel_base := None;
                                  build := None |},
                               demo_session good_read), slept 2 boot))
      by (vm_compute; reflexivity).
    rewrite Hacq' in Hacq. injection Hacq as <- <- <-. reflexivity.
  - exfalso. vm_compute in E. injection E as <- <-. discriminate Eb.
Defined.

(* ================================================================== *)
(** ** How a run ends, continued *)

Lemma persist_inv w label data st st' :
  persist w label data st = (Return tt, st') ->
  (exists_now w "output" st = true
   /\ st' = wrote (dump_file w label st) data st)
  \/ (exists_now w "output" st = false
      /\ st' = wrote (dump_file w label st) data (made_dir "output" st)).
Proof.
  unfold persist, bind at 1, os_path_exists.
  fold (exists_now w "output" st).
  destruct (exists_now w "output" st) eqn:E; cbn [negb]; intros H.
  - apply bind_Return_inv in H as ([] & st1 & [= <-] & H).
    apply bind_Return_inv in H as (fp & st2 & [= <- <-] & H).
    apply write_file_inv in H as [-> _]. auto.
  - apply bind_Return_inv in H as ([] & st1 & Hmk & H).
    assert (E1 : st1 = made_dir "output" st).
    { unfold os_mkdir, bind, os_path_exists in Hmk.
      fold (exists_now w "output" st) in Hmk. rewrite E in Hmk.
      now injection Hmk as <-. }
    subst st1.
    apply bind_Return_inv in H as (fp & st2 & [= <- <-] & H).
    apply write_file_inv in H as [-> _]. auto.
Qed.

(** X11: a run that returns has written the container the builder
    produced, and nothing after it: the newest file is
    [output/<label>-<date>-lsass.dmp] with exactly the builder's bytes,
    and the directory [output] was made by the run exactly when it did
    not exist at that moment. *)
Theorem returned_run_wrote_the_container w label vmem st st' :
  _dump w label vmem st = (Return tt, st') ->
  exists md st1 data,
    assemble w label vmem st = (Return md, st1)
    /\ Minidump_build w md = Ok data
    /\ written st' = (dump_file w label st1, data) :: written st1
    /\ clock st' = clock st1
    /\ ((exists_now w "output" st1 = true /\ made_dirs st' = made_dirs st1)
        \/ (exists_now w "output" st1 = false
            /\ made_dirs st' = "output"%string :: made_dirs st1)).
Proof.
  rewrite _dump_eq. intros H.
  apply bind_Return_inv in H as (md & st1 & Hasm & H).
  unfold build_and_persist in H.
  apply bind_Return_inv in H as (data & st2 & Hcall & H).
  apply call_inv in Hcall as [-> [(a & Hb & [= <-])|(e & _ & He)]];
    [|discriminate].
  exists md, st1, data. split; [exact Hasm|]. split; [exact Hb|].
  apply persist_inv in H as [[E ->]|[E ->]]; repeat split; auto.
Qed.

Lemma returned_run_wrote_the_container_witness :
  exists st',
    _dump (demo_world true good_read) "lab" (Some "lsass.vmem"%string) boot
    = (Return tt, st')
    /\ exists st1 data,
         written st' = (dump_file (demo_world true good_read) "lab" st1, data)
                       :: written st1.
Proof.
  destruct (_dump (demo_world true good_read) "lab"
                  (Some "lsass.vmem"%string) boot)
    as [[[]|e|n] st'] eqn:E;
    [|vm_compute in E; discriminate | vm_compute in E; discriminate].
  exists st'. split; [reflexivity|].
  destruct (returned_run_wrote_the_container _ _ _ _ _ E)
    as (md & st1 & data & _ & _ & Hw & _).
  exists st1, data. exact Hw.
Defined.

(** X12: when the enumeration has no lsass.exe the run ends through
    [sys.exit(1)], [dump] does not catch it, and no file has been
    written and no directory made. *)
Theorem missing_lsass_exits_without_output w label vmem st :
  lsass_not_found w vmem st ->
  exists st', dump w label vmem st = (SysExit 1, st')
              /\ _dump w label vmem st = (SysExit 1, st')
              /\ same_files st st'.
Proof.
  intros (config & s & st1 & Hacq & Hf).
  assert (Hd : _dump w label vmem st = (SysExit 1, st1)).
  { rewrite _dump_eq. apply bind_SysExit.
    rewrite assemble_eq, (bind_Return _ _ _ _ _ Hacq).
    unfold locate_and_gather. apply bind_SysExit. cbn [snd].
    destruct (find_lsass_cases s st1) as [(row & Hf' & _)|[_ Hr]];
      [congruence | exact Hr]. }
  exists st1. split; [|split; [exact Hd|]].
  - unfold dump. now rewrite Hd.
  - assert (H := acquire_session_same_files w vmem st). now rewrite Hacq in H.
Qed.

Lemma missing_lsass_exits_without_output_witness :
  lsass_not_found no_lsass_world (Some "lsass.vmem"%string) boot
  /\ exists st',
       dump no_lsass_world "lab" (Some "lsass.vmem"%string) boot
       = (SysExit 1, st')
       /\ same_files boot st'.
Proof.
  assert (H : lsass_not_found no_lsass_world (Some "lsass.vmem"%string) boot).
  { unfold lsass_not_found.
    destruct (acquire_session no_lsass_world (Some "lsass.vmem"%string) boot)
      as [[[config s]|e|n] st1] eqn:E;
      [|vm_compute in E; discriminate | vm_compute in E; discriminate].
    exists config, s, st1. split; [reflexivity|].
    vm_compute in E. injection E as <- <- <-. reflexivity. }
  split; [exact H|].
  destruct (missing_lsass_exits_without_output no_lsass_world "lab" _ _ H)
    as (st' & Hd & _ & Hs).
  exists st'. split; assumption.
Defined.

(* ================================================================== *)
(** ** Configuration and session *)

Transparent ensureFileExist.

Lemma ensureFileExist_Return w path st st' :
  ensureFileExist w path st = (Return tt, st') ->
  exists k, (k < 120)%nat /\ st' = slept k st
            /\ exists_now w path st' = true.
Proof.
  unfold ensureFileExist. intros H.
  destruct (poll_outcome w path 120 st) as [[_ Hp]|(k & Hk & Hex & _ & Hp)];
    rewrite Hp in H; [discriminate|].
  injection H as <-. eauto.
Qed.

Opaque ensureFileExist.

Lemma get_config_inv w vmem st config st1 :
  get_config w vmem st = (Return config, st1) ->
  (exists path, vmem = Some path /\ path <> EmptyString
                /\ snd (Py.splitext path) = ".vmem"%string
                /\ config = {| image := Some path; dtb := None;
                               kernel_base := None; build := None |}
                /\ st1 = st)
  \/ (falsy vmem
      /\ ensureFileExist w "config.json" st = (Return tt, st1)
      /\ load_config w = Ok config).
Proof.
  assert (Hfile : (ensureFileExist w "config.json" ;;; call (load_config w)) st
                  = (Return config, st1) ->
                  ensureFileExist w "config.json" st = (Return tt, st1)
                  /\ load_config w = Ok config).
  { intros H. apply bind_Return_inv in H as ([] & st2 & He & H).
    apply call_inv in H as [-> [(a & Hl & [= <-])|(e & _ & H)]];
      [auto | discriminate]. }
  unfold get_config, falsy. destruct vmem as [[|c r]|].
  - intros H. right. apply Hfile in H. tauto.
  - destruct (Py.splitext (String c r)) as [image_base image_ext] eqn:E.
    destruct (String.eqb_spec image_ext ".vmem") as [->|Ne]; cbn [negb];
      [|discriminate].
    intros [= <- <-]. left. exists (String c r). rewrite E.
    repeat split. discriminate.
  - intros H. right. apply Hfile in H. tauto.
Qed.

Lemma open_image_inv w config st1 c s st' :
  open_image w config st1 = (Return (c, s), st') ->
  c = config
  /\ exists p, image config = Some p
               /\ ensureFileExist w p st1 = (Return tt, st')
               /\ Session_open w p (dtb config) (kernel_base config) = Ok s.
Proof.
  unfold open_image. intros H.
  apply bind_Return_inv in H as (p & st2 & Hp & H).
  destruct (image config) as [p'|]; [|discriminate].
  injection Hp as <- <-.
  apply bind_Return_inv in H as ([] & st3 & He & H).
  apply bind_Return_inv in H as (s' & st4 & Hc & H).
  apply call_inv in Hc as [-> [(a & Ho & [= <-])|(e & _ & Hc)]];
    [|discriminate].
  injection H as <- <- <-. eauto.
Qed.

(** X13: a session is opened only on an image path that
    [os.path.exists] has just reported: with a local image it is that
    path, which ends in [.vmem], and neither [dtb] nor [kernel_base]
    nor [build] is passed on; without one it is the [image] entry of
    [config.json], opened with the file's [dtb] and [kernel_base].
    Nothing has been written by then. *)
Theorem session_opened_on_existing_image w vmem st config s st' :
  acquire_session w vmem st = (Return (config, s), st') ->
  exists p,
    image config = Some p
    /\ Session_open w p (dtb config) (kernel_base config) = Ok s
    /\ exists_now w p st' = true
    /\ same_files st st'
    /\ ((vmem = Some p /\ p <> EmptyString
         /\ snd (Py.splitext p) = ".vmem"%string
         /\ dtb config = None /\ kernel_base config = None
         /\ build config = None)
        \/ (falsy vmem /\ load_config w = Ok config)).
Proof.
  intros H. assert (Hsame := acquire_session_same_files w vmem st).
  rewrite H in Hsame. cbn [snd] in Hsame.
  rewrite acquire_session_eq in H.
  apply bind_Return_inv in H as (config' & st1 & Hcfg & H).
  apply open_image_inv in H as (-> & p & Hp & He & Ho).
  apply ensureFileExist_Return in He as (k & _ & _ & Hex).
  exists p. split; [exact Hp|]. split; [exact Ho|]. split; [exact Hex|].
  split; [exact Hsame|].
  apply get_config_inv in Hcfg
    as [(path & -> & Hne & Hext & -> & _)|(Hv & _ & Hl)].
  - left. cbn in Hp. injection Hp as <-. repeat split; trivial.
  - right. auto.
Qed.

Lemma session_opened_on_existing_image_witness :
  exists s st',
    acquire_session config_file_world None boot
    = (Return ({| image := Some "remote.raw"%string; dtb := Some 0x1ad000;
                  kernel_base := None; build := Some 17763 |}, s), st')
    /\ Session_open config_file_world "remote.raw" (Some 0x1ad000) None = Ok s.
Proof.
  assert (H : acquire_session config_file_world None boot
              = (Return ({| image := Some "remote.raw"%string;
                            dtb := Some 0x1ad000;
                            kernel_base := None; build := Some 17763 |},
                         demo_session good_read), slept 0 boot))
    by (vm_compute; reflexivity).
  exists (demo_session good_read), (slept 0 boot). split; [exact H|].
  destruct (session_opened_on_existing_image _ _ _ _ _ _ H)
    as (p & Hp & Ho & _).
  cbn in Hp. injection Hp as <-. exact Ho.
Defined.

(** X14: without a local image, a [config.json] that has no [image]
    key ends the run with [KeyError('image')], and a [config.json] that
    cannot be loaded ends it with the loader's exception; in both cases
    no session is opened on anything and nothing is written. *)
Theorem unusable_config_file_aborts w label vmem st st1 :
  falsy vmem ->
  ensureFileExist w "config.json" st = (Return tt, st1) ->
  (forall config, load_config w = Ok config -> image config = None ->
     _dump w label vmem st = (Raised (KeyError "image"), st1))
  /\ (forall e, load_config w = Raise e ->
        _dump w label vmem st = (Raised e, st1))
  /\ same_files st st1.
Proof.
  intros Hv He.
  assert (Hcfg : get_config w vmem st
                 = (ensureFileExist w "config.json" ;;; call (load_config w)) st)
    by (destruct Hv as [->| ->]; reflexivity).
  split; [|split].
  - intros config Hl Hi. rewrite _dump_eq. apply bind_Raised.
    rewrite assemble_eq. apply bind_Raised.
    rewrite acquire_session_eq.
    rewrite (bind_Return _ _ st config st1).
    + unfold open_image. apply bind_Raised. now rewrite Hi.
    + rewrite Hcfg, (bind_Return _ _ _ _ _ He), Hl. reflexivity.
  - intros e Hl. rewrite _dump_eq. apply bind_Raised.
    rewrite assemble_eq. apply bind_Raised.
    rewrite acquire_session_eq. apply bind_Raised.
    rewrite Hcfg, (bind_Return _ _ _ _ _ He), Hl. reflexivity.
  - assert (H := ensureFileExist_same_files w "config.json" st).
    now rewrite He in H.
Qed.

Lemma unusable_config_file_aborts_witness :
  falsy None
  /\ ensureFileExist no_image_key_world "config.json" boot
     = (Return tt, slept 0 boot)
  /\ _dump no_image_key_world "lab" None boot
     = (Raised (KeyError "image"), slept 0 boot).
Proof.
  assert (Hv : falsy None) by (left; reflexivity).
  assert (He : ensureFileExist no_image_key_world "config.json" boot
               = (Return tt, slept 0 boot)) by (vm_compute; reflexivity).
  split; [exact Hv|]. split; [exact He|].
  destruct (unusable_config_file_aborts no_image_key_world "lab" None _ _ Hv He)
    as (Hk & _ & _).
  exact (Hk _ eq_refl eq_refl).
Defined.

(** X15: when the builder is interrupted, [dump] returns as if the run
    had succeeded (exit status 0) although no container was written
    (the state is the one in which assembling ended); any other
    exception of the builder leaves [dump]. *)
Theorem interrupted_build_returns_without_container w label vmem st md st1 e :
  assemble w label vmem st = (Return md, st1) ->
  Minidump_build w md = Raise e ->
  _dump w label vmem st = (Raised e, st1)
  /\ (e = KeyboardInterrupt ->
      dump w label vmem st = (Return tt, st1)
      /\ exit_status (fst (dump w label vmem st)) = 0)
  /\ (e <> KeyboardInterrupt -> dump w label vmem st = (Raised e, st1)).
Proof.
  intros Hasm Hb.
  assert (Hd : _dump w label vmem st = (Raised e, st1)).
  { rewrite _dump_eq, (bind_Return _ _ _ _ _ Hasm).
    unfold build_and_persist. apply bind_Raised. now rewrite Hb. }
  split; [exact Hd|]. unfold dump. rewrite Hd. split.
  - intros ->. auto.
  - intros Hn. destruct e; congruence.
Qed.

Lemma interrupted_build_returns_without_container_witness :
  exists st1,
    dump interrupted_build_world "lab" (Some "lsass.vmem"%string) boot
    = (Return tt, st1)
    /\ exit_status
         (fst (dump interrupted_build_world "lab"
                    (Some "lsass.vmem"%string) boot)) = 0.
Proof.
  destruct (assemble interrupted_build_world "lab"
                     (Some "lsass.vmem"%string) boot)
    as [[md|e|n] st1] eqn:E;
    [|vm_compute in E; discriminate | vm_compute in E; discriminate].
  exists st1.
  exact (proj1 (proj2 (interrupted_build_returns_without_container
                         interrupted_build_world "lab" _ _ md st1
                         KeyboardInterrupt E eq_refl)) eq_refl).
Defined.

(* ================================================================== *)
(** ** Build number; an image without pages *)

Lemma get_build_inv config s st b st' :
  get_build config s st = (Return b, st') ->
  build config = Some b
  \/ (build config = None
      /\ exists x, List.find (fun x => match key x with
                                       | Some k => String.eqb k "NT Build"
                                       | None => false
                                       end) (imageinfo s) = Some x
                   /\ value_build x = Ok b)
  \/ (build config = None
      /\ List.find (fun x => match key x with
                             | Some k => String.eqb k "NT Build"
                             | None => false
                             end) (imageinfo s) = None
      /\ b = 0).
Proof.
  unfold get_build. destruct (build config) as [b'|].
  - intros [= <- _]. auto.
  - destruct (List.find _ (imageinfo s)) as [x|].
    + intros H. apply call_inv in H as [_ [(a & Hv & [= <-])|(e & _ & H)]];
        [|discriminate].
      right; left. eauto.
    + intros [= <- _]. auto.
Qed.

(** X16: the build number handed to the builder is the [build] entry of
    the configuration when there is one; otherwise it is read from the
    first [imageinfo] row whose key is 'NT Build' (later rows are not
    looked at), and it is 0 when there is no such row.  With a local
    image the configuration never has a [build] entry. *)
Theorem build_number_source w label vmem st md st' :
  assemble w label vmem st = (Return md, st') ->
  exists config s st1 b,
    acquire_session w vmem st = (Return (config, s), st1)
    /\ option_map BuildNumber (md_systeminfo md) = Some b
    /\ (build config = Some b
        \/ (build config = None
            /\ exists x rest_before rest_after,
                 imageinfo s = rest_before ++ x :: rest_after
                 /\ key x = Some "NT Build"%string
                 /\ Forall (fun y => key y <> Some "NT Build"%string) rest_before
                 /\ value_build x = Ok b)
        \/ (build config = None
            /\ Forall (fun y => key y <> Some "NT Build"%string) (imageinfo s)
            /\ b = 0))
    /\ (~ falsy vmem -> build config = None).
Proof.
  intros H. apply assemble_inv in H as (config & s & st1 & row & Hacq & _ & H).
  apply gather_inv in H as (md0 & b & infos & blocks & _ & Hb & _ & ->).
  exists config, s, st1, b. split; [exact Hacq|]. split; [reflexivity|].
  set (is_build := fun x : info_row =>
                     match key x with
                     | Some k => String.eqb k "NT Build"
                     | None => false
                     end) in *.
  assert (Hkey : forall y, is_build y = true <-> key y = Some "NT Build"%string).
  { intros y. unfold is_build. destruct (key y) as [k|].
    - rewrite String.eqb_eq. split; congruence.
    - split; discriminate. }
  split.
  - apply get_build_inv in Hb as [Hb|[(Hn & x & Hf & Hv)|(Hn & Hf & ->)]].
    + now left.
    + right; left. split; [exact Hn|]. fold is_build in Hf.
      clear - Hf Hv Hkey. induction (imageinfo s) as [|y t IH]; [discriminate|].
      simpl in Hf. destruct (is_build y) eqn:Ey.
      * injection Hf as ->. exists x, [], t. repeat split; trivial.
        now apply Hkey.
      * destruct (IH Hf) as (x' & before & after & -> & Hk & Hall & Hv').
        exists x', (y :: before), after. repeat split; trivial.
        constructor; [|exact Hall]. intros Hy. apply Hkey in Hy. congruence.
    + right; right. split; [exact Hn|]. split; [|reflexivity].
      fold is_build in Hf. apply Forall_forall. intros y Hy Hk.
      apply Hkey in Hk. now rewrite (find_none _ _ Hf y Hy) in Hk.
  - intros Hv. rewrite acquire_session_eq in Hacq.
    apply bind_Return_inv in Hacq as (config' & st2 & Hcfg & Ho).
    apply open_image_inv in Ho as (-> & _).
    apply get_config_inv in Hcfg as [(path & _ & _ & _ & -> & _)|(Hf & _)];
      [reflexivity | contradiction].
Qed.

Lemma build_number_source_witness :
  exists md st',
    assemble (demo_world true good_read) "lab" (Some "lsass.vmem"%string) boot
    = (Return md, st')
    /\ option_map BuildNumber (md_systeminfo md) = Some 19041.
Proof.
  destruct (assemble (demo_world true good_read) "lab"
                     (Some "lsass.vmem"%string) boot)
    as [[md|e|n] st'] eqn:E;
    [|vm_compute in E; discriminate | vm_compute in E; discriminate].
  exists md, st'. split; [reflexivity|].
  destruct (build_number_source _ _ _ _ _ _ E)
    as (config & s & st1 & b & _ & Hb & _).
  rewrite Hb. vm_compute in E. injection E as <- _. vm_compute in Hb.
  exact (eq_sym Hb).
Defined.



